(** * nedb-session-store: an expiration-aware session store over an NeDB datastore

    A shallow embedding of [index.js] (the session store handed to Connect and
    Express) together with the properties its specification states about
    expiry, staleness filtering and option normalisation.

    Layout:
    - [JS]      the fragment of JavaScript values the store manipulates;
    - [NeDB]    the document collection the store talks to;
    - [Store]   the store itself, one definition per function of [index.js];
    - [Legacy]  the earlier [index.js], which has no expiry handling;
    - the theorems. *)

From Stdlib Require Import ZArith List String Ascii Bool Lia.
From Stdlib Require DecimalString.
Import ListNotations.
Local Open Scope Z_scope.
Set Warnings "-register-all".

(* ================================================================== *)
(** * JavaScript values *)
(* ================================================================== *)

Module JS.

(** Numbers.  [Fin z] stands for an integer-valued double; every quantity the
    store computes with is a count of milliseconds of that kind.  Numbers with
    a fractional part are outside the fragment. *)
Inductive number := NaN | Infinity (negative : bool) | Fin (z : Z).

(** Values.  A [VDate] carries its time value, [None] being an Invalid Date.
    A function is abstracted to the value a call on its owner returns.  An
    object has own enumerable properties and properties found on its
    prototype chain; it is taken to inherit [valueOf] and [toString] from
    [Object.prototype]. *)
Inductive value :=
| VUndefined
| VNull
| VBool (b : bool)
| VNum (n : number)
| VStr (s : string)
| VDate (t : option Z)
| VFun (ret : value)
| VObj (own : list (string * value)) (proto : list (string * value)).

Inductive error :=
| Error (message : string)
| TypeError (message : string).

(** A synchronous computation either returns or throws. *)
Inductive completion (A : Type) :=
| Normal (a : A)
| Throw (e : error).
Arguments Normal {A} a.
Arguments Throw {A} e.

(** The host's date functions: [Date.parse] (how a string is read as a date is
    left to the implementation) and [Date.prototype.toISOString]. *)
Class Host := {
  Date_parse : string -> option Z;
  Date_toISOString : Z -> string
}.

Definition ToBoolean (v : value) : bool :=
  match v with
  | VUndefined | VNull => false
  | VBool b => b
  | VNum NaN => false
  | VNum (Fin z) => negb (z =? 0)
  | VNum (Infinity _) => true
  | VStr s => negb (s =? "")%string
  | VDate _ | VFun _ | VObj _ _ => true
  end.

Definition is_function (v : value) : bool :=
  match v with VFun _ => true | _ => false end.

(** [v === null] *)
Definition is_null (v : value) : bool :=
  match v with VNull => true | _ => false end.

(** Calling a function value. *)
Definition call (f : value) : value :=
  match f with VFun ret => ret | _ => VUndefined end.

Fixpoint lookup (k : string) (l : list (string * value)) : option value :=
  match l with
  | [] => None
  | (k', v) :: l' => if (k' =? k)%string then Some v else lookup k l'
  end.

(** [o[k] = v] on the own properties of an object. *)
Fixpoint assign (k : string) (v : value) (l : list (string * value))
  : list (string * value) :=
  match l with
  | [] => [(k, v)]
  | (k', v') :: l' =>
      if (k' =? k)%string then (k, v) :: l' else (k', v') :: assign k v l'
  end.

(** What an object lets the objects that have it as prototype find: for an
    object its own properties and those of its chain; nothing for [null];
    [None] for a primitive, which cannot be a prototype. *)
Definition inherited_from (toJSON_of_date : option Z -> value) (v : value)
  : option (list (string * value)) :=
  match v with
  | VObj own proto => Some (own ++ proto)
  | VNull => Some []
  | VDate t => Some [("toJSON"%string, VFun (toJSON_of_date t))]
  | VFun _ => Some []
  | _ => None
  end.

Fixpoint chars (s : string) : list string :=
  match s with
  | EmptyString => []
  | String c s' => String c EmptyString :: chars s'
  end.

Definition index_key (i : nat) : string :=
  DecimalString.NilEmpty.string_of_uint (Nat.to_uint i).

(** The index properties of a string primitive. *)
Definition string_props (s : string) : list (string * value) :=
  let cs := chars s in
  combine (map index_key (seq 0 (List.length cs))) (map VStr cs).

(** [Date.prototype.toJSON]: the ISO string, or [null] for an Invalid Date. *)
Definition Date_toJSON `{Host} (t : option Z) : value :=
  match t with
  | Some z => VStr (Date_toISOString z)
  | None => VNull
  end.

(** [o[k] = v] on an object literal [o], given as its own properties and what
    it finds on its prototype chain.  The key [__proto__] reaches the setter
    of [Object.prototype]: an object or [null] becomes the prototype, anything
    else is ignored, and no own property is created.  Any other key creates
    or updates an own property. *)
Definition put `{Host} (k : string) (v : value)
    (o : list (string * value) * list (string * value))
  : list (string * value) * list (string * value) :=
  if (k =? "__proto__")%string then
    match inherited_from Date_toJSON v with
    | Some proto => (fst o, proto)
    | None => o
    end
  else (assign k v (fst o), snd o).

(** Property read [v[k]] on a value that is neither [undefined] nor [null]. *)
Definition Get `{Host} (v : value) (k : string) : value :=
  match v with
  | VObj own proto =>
      match lookup k own with
      | Some x => x
      | None => match lookup k proto with Some x => x | None => VUndefined end
      end
  | VDate t => if (k =? "toJSON")%string then VFun (Date_toJSON t) else VUndefined
  | VStr s => match lookup k (string_props s) with Some x => x | None => VUndefined end
  | _ => VUndefined
  end.

(** Property read that throws on [undefined] and [null], as [v.k] does. *)
Definition GetV `{Host} (v : value) (k : string) : completion value :=
  match v with
  | VUndefined | VNull =>
      Throw (TypeError ("Cannot read property '" ++ k ++ "' of undefined or null"))
  | _ => Normal (Get v k)
  end.

(** [Object.keys(v)] (ES2015: a primitive is converted to an object first) *)
Definition Object_keys (v : value) : completion (list string) :=
  match v with
  | VUndefined | VNull =>
      Throw (TypeError "Cannot convert undefined or null to object")
  | VObj own _ => Normal (map fst own)
  | VStr s => Normal (map fst (string_props s))
  | _ => Normal []
  end.

(** ** Numbers *)

Definition num_lt (a b : number) : bool :=
  match a, b with
  | NaN, _ | _, NaN => false
  | Fin x, Fin y => x <? y
  | Infinity true, Infinity true => false
  | Infinity true, _ => true
  | _, Infinity true => false
  | Infinity false, _ => false
  | _, Infinity false => true
  end.

Definition num_add (a b : number) : number :=
  match a, b with
  | NaN, _ | _, NaN => NaN
  | Fin x, Fin y => Fin (x + y)
  | Infinity s, Fin _ | Fin _, Infinity s => Infinity s
  | Infinity s, Infinity s' => if Bool.eqb s s' then Infinity s else NaN
  end.

(** [typeof v === 'number'] *)
Definition is_number (v : value) : bool :=
  match v with VNum _ => true | _ => false end.

(** [Number.isFinite(v)] (no coercion) *)
Definition Number_isFinite (v : value) : bool :=
  match v with VNum (Fin _) => true | _ => false end.

(** [v > 0] for a value already known to be a number. *)
Definition gt_zero (v : value) : bool :=
  match v with VNum n => num_lt (Fin 0) n | _ => false end.

Definition is_space (c : ascii) : bool :=
  let n := nat_of_ascii c in
  ((n =? 32) || (n =? 9) || (n =? 10) || (n =? 11) || (n =? 12) || (n =? 13))%nat.

Definition digit_of (c : ascii) : option Z :=
  let n := nat_of_ascii c in
  if ((48 <=? n) && (n <=? 57))%nat then Some (Z.of_nat n - 48) else None.

Fixpoint skip_spaces (s : string) : string :=
  match s with
  | String c s' => if is_space c then skip_spaces s' else s
  | EmptyString => s
  end.

(** The longest prefix of decimal digits; [None] when there is none. *)
Fixpoint digits (s : string) (acc : option Z) : option Z :=
  match s with
  | String c s' =>
      match digit_of c with
      | Some d => digits s' (Some (10 * match acc with Some a => a | None => 0 end + d))
      | None => acc
      end
  | EmptyString => acc
  end.

Definition parse_decimal (s : string) : number :=
  match skip_spaces s with
  | String "-" r => match digits r None with Some z => Fin (- z) | None => NaN end
  | String "+" r => match digits r None with Some z => Fin z | None => NaN end
  | r => match digits r None with Some z => Fin z | None => NaN end
  end.

(** The double nearest to a non-negative integer, ties to even. *)
Definition nearest_double (v : Z) : Z :=
  let bits := Z.log2 v + 1 in
  if bits <=? 53 then v
  else
    let sh := bits - 53 in
    let q := Z.shiftr v sh in
    let r := v - Z.shiftl q sh in
    let half := Z.shiftl 1 (sh - 1) in
    Z.shiftl (if (half <? r) || ((r =? half) && Z.odd q) then q + 1 else q) sh.

Fixpoint count_digits (fuel : nat) (v : Z) : Z :=
  match fuel with
  | O => 0
  | S fuel' => if v <? 10 then 1 else 1 + count_digits fuel' (v / 10)
  end.

(** The number of decimal digits of a positive integer. *)
Definition decimal_length (v : Z) : Z :=
  count_digits (S (Z.to_nat (Z.log2 v))) v.

Fixpoint leading_digit (fuel : nat) (s : Z) : Z :=
  match fuel with
  | O => s
  | S fuel' => if s <? 10 then s else leading_digit fuel' (s / 10)
  end.

(** The first decimal digit of a positive integer. *)
Definition first_digit (s : Z) : Z :=
  leading_digit (S (Z.to_nat (Z.log2 s))) s.

(** The digits [Number::toString] prints for the double [x] of [len] decimal
    digits: the shortest [s], of [k] digits or more, such that [s] followed by
    zeros still denotes [x]; of two, the closer one, then the even one. *)
Fixpoint shortest_digits (fuel : nat) (k len x : Z) : Z :=
  match fuel with
  | O => x
  | S fuel' =>
      let t := 10 ^ (len - k) in
      let lo := x / t in
      let hi := lo + 1 in
      let lo_denotes := nearest_double (lo * t) =? x in
      let hi_denotes := nearest_double (hi * t) =? x in
      if lo_denotes && hi_denotes then
        if x - lo * t <? hi * t - x then lo
        else if hi * t - x <? x - lo * t then hi
        else if Z.even lo then lo else hi
      else if lo_denotes then lo
      else if hi_denotes then hi
      else shortest_digits fuel' (k + 1) len x
  end.

(** A number of 10^21 or more prints in exponent notation, as [d.ddde+N]; this
    is its digit [d]. *)
Definition exponent_digit (x : Z) : Z :=
  first_digit (shortest_digits 17 1 (decimal_length x) x).

(** [parseInt(v, 10)]: the argument is converted to a string and its leading
    integer read.  Only numbers and strings can print with a leading digit;
    an integer below 10^21 prints all its digits, a larger one prints in
    exponent notation and only its first digit is read. *)
Definition parseInt (v : value) : number :=
  match v with
  | VNum (Fin z) =>
      if Z.abs z <? 10 ^ 21 then Fin z
      else Fin (Z.sgn z * exponent_digit (Z.abs z))
  | VStr s => parse_decimal s
  | _ => NaN
  end.

(** ** Dates *)

Definition date := option Z.

Definition TimeClip (n : number) : date :=
  match n with
  | Fin z => if Z.abs z <=? 8640000000000000 then Some z else None
  | _ => None
  end.

(** [new Date(v)].  A Date argument is copied; a string is parsed; any other
    primitive is converted to a number and clipped.  A plain object converts to
    the string [[object Object]]; the source text of a function is no date. *)
Definition new_Date `{Host} (v : value) : date :=
  match v with
  | VDate t => t
  | VStr s => Date_parse s
  | VUndefined => None
  | VNull => Some 0
  | VBool b => Some (if b then 1 else 0)
  | VNum n => TimeClip n
  | VObj _ _ => Date_parse "[object Object]"
  | VFun _ => None
  end.

(** ** [JSON.stringify] of a string *)

Definition quote : ascii := ascii_of_nat 34.
Definition backslash : ascii := ascii_of_nat 92.

Definition hex_digit (n : nat) : ascii :=
  if (n <? 10)%nat then ascii_of_nat (48 + n) else ascii_of_nat (87 + n).

Definition escape_char (c : ascii) : string :=
  let n := nat_of_ascii c in
  let esc (x : string) := String backslash x in
  if (n =? 34)%nat then esc (String quote EmptyString)
  else if (n =? 92)%nat then esc (String backslash EmptyString)
  else if (n =? 8)%nat then esc "b"%string
  else if (n =? 9)%nat then esc "t"%string
  else if (n =? 10)%nat then esc "n"%string
  else if (n =? 12)%nat then esc "f"%string
  else if (n =? 13)%nat then esc "r"%string
  else if (n <? 32)%nat then
    esc (String "u" (String "0" (String "0"
      (String (hex_digit (n / 16)) (String (hex_digit (n mod 16)) EmptyString)))))
  else String c EmptyString.

Fixpoint escape (s : string) : string :=
  match s with
  | EmptyString => EmptyString
  | String c s' => (escape_char c ++ escape s')%string
  end.

Definition JSON_stringify (s : string) : string :=
  String quote (escape s ++ String quote EmptyString)%string.

End JS.

(* ================================================================== *)
(** * The document collection *)
(* ================================================================== *)

(** Modelled from the spec: the NeDB datastore is a dependency of the store and
    is not part of [index.js].  Its operations follow the consumed capability
    the specification lists ([update] with [$set], [upsert] and [multi];
    [findOne]; [find]; [remove]), on a collection created with
    [timestampData: true].  A command the datastore rejects reports its error
    and leaves the documents as they were. *)
Module NeDB.
Import JS.

Record doc := {
  _id : string;
  session : value;                (* [VUndefined] when the field is absent *)
  expiresAt : option date;        (* [None] when the field is absent *)
  createdAt : Z;
  updatedAt : Z
}.

(** The fields a [$set] modifier assigns. *)
Record modifier := {
  set_session : option value;
  set_expiresAt : option date;
  set_updatedAt : option Z
}.

Inductive command :=
| Update (id : string) (m : modifier) (upsert : bool)   (* multi: false *)
| FindOne (id : string)
| Find                                                  (* filter {} *)
| Count                                                 (* filter {} *)
| Remove (id : string)                                  (* multi: false *)
| RemoveAll.                                            (* filter {}, multi: true *)

(** Which commands the datastore rejects, and with which error. *)
Definition faults := command -> option error.

Definition no_faults : faults := fun _ => None.

Record Datastore := {
  docs : list doc;
  log : list command;                    (* commands received, oldest first *)
  autocompaction : option number         (* interval handed to setAutocompactionInterval *)
}.

Definition with_docs (l : list doc) (ds : Datastore) : Datastore :=
  {| docs := l; log := log ds; autocompaction := autocompaction ds |}.

Definition received (c : command) (ds : Datastore) : Datastore :=
  {| docs := docs ds; log := log ds ++ [c]; autocompaction := autocompaction ds |}.

Definition matches (id : string) (d : doc) : bool := (_id d =? id)%string.

Definition orelse {A} (o : option A) (a : A) : A :=
  match o with Some x => x | None => a end.

(** [$set] on an existing document; [createdAt] is kept and [updatedAt] is
    stamped by the datastore. *)
Definition modify (now : Z) (m : modifier) (d : doc) : doc :=
  {| _id := _id d;
     session := orelse (set_session m) (session d);
     expiresAt := match set_expiresAt m with Some e => Some e | None => expiresAt d end;
     createdAt := createdAt d;
     updatedAt := now |}.

(** The document an upsert inserts: the filter's fields and the modifier's. *)
Definition inserted (now : Z) (id : string) (m : modifier) : doc :=
  {| _id := id;
     session := orelse (set_session m) VUndefined;
     expiresAt := set_expiresAt m;
     createdAt := now;
     updatedAt := orelse (set_updatedAt m) now |}.

Fixpoint update_first (id : string) (f : doc -> doc) (l : list doc) : list doc :=
  match l with
  | [] => []
  | d :: l' => if matches id d then f d :: l' else d :: update_first id f l'
  end.

Fixpoint remove_first (id : string) (l : list doc) : list doc :=
  match l with
  | [] => []
  | d :: l' => if matches id d then l' else d :: remove_first id l'
  end.

(** [update({_id: id}, {$set: m}, {multi: false, upsert}, cb)]: the callback's
    [(err, numAffected, newDoc)]. *)
Definition update (now : Z) (io : faults) (id : string) (m : modifier)
    (upsert : bool) (ds : Datastore)
  : (option error * Z * option doc) * Datastore :=
  let ds := received (Update id m upsert) ds in
  match io (Update id m upsert) with
  | Some e => ((Some e, 0, None), ds)
  | None =>
      if existsb (matches id) (docs ds) then
        ((None, 1, None), with_docs (update_first id (modify now m) (docs ds)) ds)
      else if upsert then
        let d := inserted now id m in
        ((None, 1, Some d), with_docs (docs ds ++ [d]) ds)
      else ((None, 0, None), ds)
  end.

(** [findOne({_id: id}, cb)] *)
Definition findOne (io : faults) (id : string) (ds : Datastore)
  : (option error * option doc) * Datastore :=
  let ds := received (FindOne id) ds in
  match io (FindOne id) with
  | Some e => ((Some e, None), ds)
  | None => ((None, List.find (matches id) (docs ds)), ds)
  end.

(** [find({}, cb)] *)
Definition find (io : faults) (ds : Datastore)
  : (option error * option (list doc)) * Datastore :=
  let ds := received Find ds in
  match io Find with
  | Some e => ((Some e, None), ds)
  | None => ((None, Some (docs ds)), ds)
  end.

(** [count({}, cb)] *)
Definition count (io : faults) (ds : Datastore)
  : (option error * option Z) * Datastore :=
  let ds := received Count ds in
  match io Count with
  | Some e => ((Some e, None), ds)
  | None => ((None, Some (Z.of_nat (List.length (docs ds)))), ds)
  end.

(** [remove({_id: id}, {multi: false}, cb)] *)
Definition remove (io : faults) (id : string) (ds : Datastore)
  : option error * Datastore :=
  let ds := received (Remove id) ds in
  match io (Remove id) with
  | Some e => (Some e, ds)
  | None => (None, with_docs (remove_first id (docs ds)) ds)
  end.

(** [remove({}, {multi: true}, cb)] *)
Definition remove_all (io : faults) (ds : Datastore) : option error * Datastore :=
  let ds := received RemoveAll ds in
  match io RemoveAll with
  | Some e => (Some e, ds)
  | None => (None, with_docs [] ds)
  end.

(** The collection's unique index on [_id]. *)
Definition unique_ids (l : list doc) : Prop := NoDup (map _id l).

End NeDB.

(* ================================================================== *)
(** * The session store ([index.js]) *)
(* ================================================================== *)

(** Every operation hands its command to the datastore and finishes in the
    datastore's callback.  An operation is modelled by what its callback
    receives and by the store it leaves behind; [now] is the clock of the call
    (taken not to advance while the call and its callback run) and [io] tells
    which commands the datastore rejects. *)
Module Store.
Import JS NeDB.

Definition ONE_DAY : Z := 86400000.
Definition TWO_WEEKS : Z := 14 * ONE_DAY.

(** The options object; a missing option is [VUndefined]. *)
Record options := {
  defaultExpiry : value;
  inMemoryOnly : value;
  filename : value;
  afterSerialization : value;
  beforeDeserialization : value;
  corruptAlertThreshold : value;
  autoCompactInterval : value;
  onload : value
}.

(** [options || {}] when no options are passed. *)
Definition no_options : options :=
  {| defaultExpiry := VUndefined; inMemoryOnly := VUndefined;
     filename := VUndefined; afterSerialization := VUndefined;
     beforeDeserialization := VUndefined; corruptAlertThreshold := VUndefined;
     autoCompactInterval := VUndefined; onload := VUndefined |}.

(** What the store emits on its event channel. *)
Inductive event :=
| EvError (err : error)
| EvConnect
| EvDisconnect.

(** The store object: [this._defaultExpiry], [this.datastore], and the events
    emitted so far (oldest first). *)
Record instance := {
  _defaultExpiry : number;
  datastore : Datastore;
  emitted : list event
}.

Definition with_datastore (ds : Datastore) (this : instance) : instance :=
  {| _defaultExpiry := _defaultExpiry this; datastore := ds; emitted := emitted this |}.

Definition emit (e : event) (this : instance) : instance :=
  {| _defaultExpiry := _defaultExpiry this; datastore := datastore this;
     emitted := emitted this ++ [e] |}.

(** The auto-compaction interval the constructor settles on; [None] is [null]. *)
Definition aci_of (autoCompactInterval : value) : option number :=
  if negb (is_null autoCompactInterval) then
    let aci := parseInt autoCompactInterval in
    Some (if num_lt aci (Fin 5000) then Fin 5000
          else if num_lt aci (Fin ONE_DAY) then aci else Fin ONE_DAY)
  else None.

(** The options after the constructor's normalisation, as handed to NeDB;
    [path.join('data', 'sessions.db')] is written with the POSIX separator. *)
Definition normalized (opts : options) : options :=
  let inMemoryOnly' := ToBoolean (inMemoryOnly opts) in
  if negb inMemoryOnly' then
    {| defaultExpiry := defaultExpiry opts;
       inMemoryOnly := VBool inMemoryOnly';
       filename := if ToBoolean (filename opts) then filename opts
                   else VStr "data/sessions.db";
       afterSerialization := afterSerialization opts;
       beforeDeserialization := beforeDeserialization opts;
       corruptAlertThreshold := corruptAlertThreshold opts;
       autoCompactInterval := autoCompactInterval opts;
       onload := onload opts |}
  else
    {| defaultExpiry := defaultExpiry opts;
       inMemoryOnly := VBool inMemoryOnly';
       filename := VNull;
       afterSerialization := VNull;
       beforeDeserialization := VNull;
       corruptAlertThreshold := VUndefined;
       autoCompactInterval := VNull;
       onload := onload opts |}.

(** [function NeDBStore( options )].  [persisted] is what a file-based
    datastore finds in its file and [loadErr] the outcome of loading it. *)
Definition NeDBStore (opts : options) (persisted : list doc)
    (loadErr : option error) : instance :=
  let options := normalized opts in
  let _defaultExpiry' :=
    if is_number (defaultExpiry options) &&
       Number_isFinite (defaultExpiry options) &&
       gt_zero (defaultExpiry options)
    then parseInt (defaultExpiry options)
    else Fin TWO_WEEKS in
  let aci := aci_of (autoCompactInterval options) in
  let onload_events :=
    match loadErr with
    | Some err => [EvError err; EvDisconnect]
    | None => [EvConnect]
    end in
  let loaded :=
    match loadErr with
    | Some _ => []
    | None => if ToBoolean (filename options) then persisted else []
    end in
  {| _defaultExpiry := _defaultExpiry';
     datastore :=
       {| docs := loaded;
          log := [];
          autocompaction :=
            if ToBoolean (filename options) then aci else None |};
     emitted := onload_events |}.

(** [session && session.cookie && session.cookie.expires] *)
Definition cookie_expires `{Host} (session : value) : value :=
  if ToBoolean session then
    let cookie := Get session "cookie" in
    if ToBoolean cookie then Get cookie "expires" else cookie
  else session.

(** The loop of [set] that copies the session's keys into [sess], writing the
    cookie through its [toJSON] when it has one. *)
Definition copy_key `{Host} (session : value)
    (acc : completion (list (string * value) * list (string * value)))
    (key : string)
  : completion (list (string * value) * list (string * value)) :=
  match acc with
  | Throw e => Throw e
  | Normal sess =>
      if (key =? "cookie")%string then
        match GetV (Get session key) "toJSON" with
        | Throw e => Throw e
        | Normal toJSON =>
            if is_function toJSON then Normal (put key (call toJSON) sess)
            else Normal (put key (Get session key) sess)
        end
      else Normal (put key (Get session key) sess)
  end.

Definition serialized `{Host} (session : value) : completion value :=
  match Object_keys session with
  | Throw e => Throw e
  | Normal keys =>
      match fold_left (copy_key session) keys (Normal ([], [])) with
      | Throw e => Throw e
      | Normal sess => Normal (VObj (fst sess) (snd sess))
      end
  end.

Definition no_session (sessionId : string) : error :=
  Error ("No Session exists with ID " ++ JSON_stringify sessionId).

(** [NeDBStore.prototype.destroy]: the callback's [err]. *)
Definition destroy (io : faults) (sessionId : string) (this : instance)
  : option error * instance :=
  let '(err, ds) := NeDB.remove io sessionId (datastore this) in
  (err, with_datastore ds this).

(** [NeDBStore.prototype.clear]: the callback's [err]. *)
Definition clear (io : faults) (this : instance) : option error * instance :=
  let '(err, ds) := NeDB.remove_all io (datastore this) in
  (err, with_datastore ds this).

(** The date [set] stores as [expiresAt]. *)
Definition expirationDate `{Host} (now : Z) (this : instance) (session : value)
  : date :=
  if ToBoolean (cookie_expires session) then
    new_Date (Get (Get session "cookie") "expires")
  else
    new_Date (VNum (num_add (Fin now) (_defaultExpiry this))).

(** [NeDBStore.prototype.set]: the callback's [err], unless the call throws. *)
Definition set `{Host} (now : Z) (io : faults) (sessionId : string)
    (session : value) (this : instance)
  : completion (option error) * instance :=
  let expirationDate := expirationDate now this session in
  match serialized session with
  | Throw e => (Throw e, this)
  | Normal sess =>
      let '((err, numAffected, newDoc), ds) :=
        NeDB.update now io sessionId
          {| set_session := Some sess;
             set_expiresAt := Some expirationDate;
             set_updatedAt := None |}
          true (datastore this) in
      let err :=
        match err, newDoc with
        | None, None => if numAffected =? 0 then Some (no_session sessionId) else err
        | _, _ => err
        end in
      (Normal err, with_datastore ds this)
  end.

(** The modifier [touch] builds. *)
Definition touchSetOp `{Host} (now : Z) (session : value) : modifier :=
  {| set_session := None;
     set_expiresAt :=
       if ToBoolean (cookie_expires session) then
         Some (new_Date (Get (Get session "cookie") "expires"))
       else None;
     set_updatedAt := Some now |}.

(** [NeDBStore.prototype.touch]: the callback's [err]. *)
Definition touch `{Host} (now : Z) (io : faults) (sessionId : string)
    (session : value) (this : instance)
  : option error * instance :=
  let '((err, numAffected, _), ds) :=
    NeDB.update now io sessionId (touchSetOp now session) false (datastore this) in
  let err :=
    match err with
    | None => if numAffected =? 0 then Some (no_session sessionId) else err
    | Some _ => err
    end in
  (err, with_datastore ds this).

(** [!existingDoc.expiresAt] *)
Definition no_expiresAt (d : doc) : bool :=
  match expiresAt d with None => true | Some _ => false end.

(** [new Date() < existingDoc.expiresAt] *)
Definition before_expiresAt (now : Z) (d : doc) : bool :=
  match expiresAt d with
  | Some (Some t) => now <? t
  | Some None => false
  | None => false
  end.

(** The test [get] and [all] both make:
    [existingDoc.session && !existingDoc.expiresAt || new Date() < existingDoc.expiresAt] *)
Definition is_live (now : Z) (existingDoc : doc) : bool :=
  (ToBoolean (session existingDoc) && no_expiresAt existingDoc)
  || before_expiresAt now existingDoc.

(** [NeDBStore.prototype.get]: the callback's [(err, session)]. *)
Definition get (now : Z) (io : faults) (sessionId : string) (this : instance)
  : (option error * value) * instance :=
  let '((err, existingDoc), ds) := NeDB.findOne io sessionId (datastore this) in
  let this := with_datastore ds this in
  match err with
  | Some e => ((Some e, VNull), this)
  | None =>
      match existingDoc with
      | Some existingDoc =>
          if is_live now existingDoc then ((None, session existingDoc), this)
          else
            let '(destroyErr, this) := destroy io sessionId this in
            ((destroyErr, VNull), this)
      | None => ((None, VNull), this)
      end
  end.

(** The filtering callback of [all], with its side effect: a stale document is
    destroyed, and a failure to destroy it is emitted as an ['error'] event. *)
Fixpoint filter_live (now : Z) (io : faults) (existingDocs : list doc)
    (this : instance) : list doc * instance :=
  match existingDocs with
  | [] => ([], this)
  | existingDoc :: rest =>
      if is_live now existingDoc then
        let '(kept, this) := filter_live now io rest this in
        (existingDoc :: kept, this)
      else
        let '(destroyErr, this) := destroy io (_id existingDoc) this in
        let this :=
          match destroyErr with
          | Some e => emit (EvError e) this
          | None => this
          end in
        filter_live now io rest this
  end.

(** [NeDBStore.prototype.all]: the callback's [(err, sessions)]. *)
Definition all (now : Z) (io : faults) (this : instance)
  : (option error * option (list value)) * instance :=
  let '((err, existingDocs), ds) := NeDB.find io (datastore this) in
  let this := with_datastore ds this in
  match err with
  | Some e => ((Some e, None), this)
  | None =>
      let '(kept, this) := filter_live now io (orelse existingDocs []) this in
      ((None, Some (map session kept)), this)
  end.

(** [NeDBStore.prototype.length]: the callback's [(err, count)]. *)
Definition length (now : Z) (io : faults) (this : instance)
  : (option error * Z) * instance :=
  let '((err, sessions), this) := all now io this in
  ((err, Z.of_nat (List.length (orelse sessions []))), this).

End Store.

(* ================================================================== *)
(** * The earlier [index.js]: no expiry *)
(* ================================================================== *)

Module Legacy.
Import JS NeDB.

(** [NeDBStore.prototype.all] *)
Definition all (io : faults) (ds : Datastore)
  : (option error * option (list value)) * Datastore :=
  let '((err, existingDocs), ds) := NeDB.find io ds in
  match err with
  | Some e => ((Some e, None), ds)
  | None => ((None, Some (map session (orelse existingDocs []))), ds)
  end.

(** [NeDBStore.prototype.length] *)
Definition length (io : faults) (ds : Datastore)
  : (option error * option Z) * Datastore :=
  NeDB.count io ds.

(** [NeDBStore.prototype.set]: the session is stored as it is given. *)
Definition set (now : Z) (io : faults) (sessionId : string) (session : value)
    (ds : Datastore) : option error * Datastore :=
  let '((err, numAffected, newDoc), ds) :=
    NeDB.update now io sessionId
      {| set_session := Some session; set_expiresAt := None; set_updatedAt := None |}
      true ds in
  let err :=
    match err, newDoc with
    | None, None =>
        if numAffected =? 0 then Some (Store.no_session sessionId) else err
    | _, _ => err
    end in
  (err, ds).

(** [NeDBStore.prototype.touch] *)
Definition touch (now : Z) (io : faults) (sessionId : string) (ds : Datastore)
  : option error * Datastore :=
  let '((err, numAffected, _), ds) :=
    NeDB.update now io sessionId
      {| set_session := None; set_expiresAt := None; set_updatedAt := Some now |}
      false ds in
  let err :=
    match err with
    | None => if numAffected =? 0 then Some (Store.no_session sessionId) else err
    | Some _ => err
    end in
  (err, ds).

(** [NeDBStore.prototype.get]: [( existingDoc && existingDoc.session ) || null] *)
Definition get (io : faults) (sessionId : string) (ds : Datastore)
  : (option error * value) * Datastore :=
  let '((err, existingDoc), ds) := NeDB.findOne io sessionId ds in
  ((err,
    match existingDoc with
    | Some existingDoc =>
        if ToBoolean (session existingDoc) then session existingDoc else VNull
    | None => VNull
    end), ds).

(** [NeDBStore.prototype.destroy] *)
Definition destroy (io : faults) (sessionId : string) (ds : Datastore)
  : option error * Datastore :=
  NeDB.remove io sessionId ds.

(** [NeDBStore.prototype.clear] *)
Definition clear (io : faults) (ds : Datastore) : option error * Datastore :=
  NeDB.remove_all io ds.

(** The options object of the earlier constructor. *)
Record options := {
  inMemoryOnly : value;
  filename : value;
  afterSerialization : value;
  beforeDeserialization : value;
  corruptAfterThreshold : value;
  autoCompactInterval : value;
  onload : value
}.

(** The earlier store announces itself as ['connected'] or ['disconnected']. *)
Inductive event :=
| EvError (err : error)
| EvConnected
| EvDisconnected.

(** What the constructor leaves: the datastore; the argument of
    [setAutocompactionInterval], if it was called; the events emitted; and the
    load callback with the error it was called with. *)
Record instance := {
  datastore : Datastore;
  scheduled : option value;
  emitted : list event;
  loaded : value * option error
}.

(** [typeof v === 'boolean'] *)
Definition is_boolean (v : value) : bool :=
  match v with VBool _ => true | _ => false end.

Definition not_specified : error :=
  Error "NeDB datastore must either be in-memory or file-persisted but appropriate options were not specified".

(** [function NeDBStore( options, callback )].  When neither a file nor an
    in-memory datastore is asked for, the constructor emits an ['error'] event
    on the object under construction, which can have no listener yet:
    emitting it throws the error. *)
Definition NeDBStore (opts : options) (callback : value)
    (persisted : list doc) (loadErr : option error) : completion instance :=
  let inMemoryOnly' :=
    if negb (is_boolean (inMemoryOnly opts))
    then VBool (negb (ToBoolean (filename opts)))
    else inMemoryOnly opts in
  if negb (ToBoolean (filename opts)) && negb (ToBoolean inMemoryOnly') then
    Throw not_specified
  else
    let filename' := if ToBoolean inMemoryOnly' then VNull else filename opts in
    let autoCompactInterval' :=
      if ToBoolean inMemoryOnly' then VNull else autoCompactInterval opts in
    let autoCompactInterval'' :=
      if negb (is_null autoCompactInterval') then
        let aci := parseInt autoCompactInterval' in
        VNum (if num_lt aci (Fin 5000) then Fin 5000
              else if num_lt aci (Fin Store.ONE_DAY) then aci
              else Fin Store.ONE_DAY)
      else autoCompactInterval' in
    let onLoadFn :=
      if is_function callback then callback
      else if is_function (onload opts) then onload opts
      else VFun VUndefined in
    let compacting := negb (ToBoolean inMemoryOnly') && ToBoolean filename' in
    Normal
      {| datastore :=
           {| docs := match loadErr with
                      | Some _ => []
                      | None => if ToBoolean filename' then persisted else []
                      end;
              log := [];
              autocompaction :=
                match autoCompactInterval'' with
                | VNum n => if compacting then Some n else None
                | _ => None
                end |};
         scheduled := if compacting then Some autoCompactInterval'' else None;
         emitted := match loadErr with
                    | Some err => [EvError err; EvDisconnected]
                    | None => [EvConnected]
                    end;
         loaded := (onLoadFn, loadErr) |}.

End Legacy.

(* ================================================================== *)
(** * The specification's wording *)
(* ================================================================== *)

(** Definitions that follow the words of the specification rather than the
    code; the theorems compare them with [Store]. *)
Module Spec.
Import JS NeDB.

(** A record is live iff [expiresAt] is absent or the current time is strictly
    before [expiresAt]. *)
Definition live (now : Z) (d : doc) : bool :=
  match expiresAt d with
  | None => true
  | Some (Some t) => now <? t
  | Some None => false
  end.

(** The data model's session payload: a mapping, hence a truthy value. *)
Definition has_payload (d : doc) : Prop := ToBoolean (session d) = true.

(** [expiresAt] is [new Date(session.cookie.expires)] when
    [session.cookie.expires] is present and coercible to a timestamp, and the
    write time plus the default expiry otherwise. *)
Definition expiresAt_of `{Host} (now : Z) (defaultExpiry : number)
    (session : value) : date :=
  let fallback := new_Date (VNum (num_add (Fin now) defaultExpiry)) in
  match Get (Get session "cookie") "expires" with
  | VUndefined | VNull => fallback
  | expires =>
      match new_Date expires with
      | Some t => Some t
      | None => fallback
      end
  end.

(** The configured default expiry: the option when it is a positive finite
    number, 14 days otherwise. *)
Definition defaultExpiry_of (v : value) : number :=
  match v with
  | VNum (Fin z) => if 0 <? z then Fin z else Fin 1209600000
  | _ => Fin 1209600000
  end.

(** The session's cookie carries an expiration: the session, its cookie and
    the cookie's [expires] are all truthy. *)
Definition carries_expiration `{Host} (session : value) : bool :=
  ToBoolean session &&
  ToBoolean (Get session "cookie") &&
  ToBoolean (Get (Get session "cookie") "expires").

(** [touch] updates only [updatedAt], and [expiresAt] if the supplied session's
    cookie carries an explicit expiration: the record it leaves in place of
    [d]. *)
Definition touched `{Host} (now : Z) (session : value) (d : doc) : doc :=
  {| _id := _id d;
     NeDB.session := NeDB.session d;
     expiresAt :=
       if carries_expiration session
       then Some (new_Date (Get (Get session "cookie") "expires"))
       else expiresAt d;
     createdAt := createdAt d;
     updatedAt := now |}.

(** The records [all] keeps and the records it finds stale, under the test
    [get] makes. *)
Definition live_records (now : Z) (l : list doc) : list doc :=
  filter (Store.is_live now) l.

Definition stale_records (now : Z) (l : list doc) : list doc :=
  filter (fun d => negb (Store.is_live now d)) l.

(** The errors of the removals the datastore rejects, one per record. *)
Definition destroy_failures (io : faults) (l : list doc) : list Store.event :=
  flat_map (fun d => match io (Remove (_id d)) with
                     | Some e => [Store.EvError e]
                     | None => []
                     end) l.

(** What the theorems assume of a store: the collection's ids are unique, its
    records carry a session payload, and the default expiry is a positive
    number of milliseconds. *)
Definition well_formed (this : Store.instance) : Prop :=
  unique_ids (docs (Store.datastore this)) /\
  Forall has_payload (docs (Store.datastore this)) /\
  exists de, Store._defaultExpiry this = Fin de /\ 0 < de.

End Spec.

(* ================================================================== *)
(** * Sample inputs *)
(* ================================================================== *)

Module Sample.
Import JS NeDB.
Local Open Scope string_scope.

(** A host that reads no string as a date; the samples carry Date objects. *)
Definition host : Host :=
  {| Date_parse := fun _ => None;
     Date_toISOString := fun _ => "1970-01-01T00:00:00.000Z" |}.

Definition plain_cookie (expires : value) : value :=
  VObj [("originalMaxAge", VNull); ("expires", expires);
        ("httpOnly", VBool true); ("path", VStr "/")] [].

(** A cookie in the manner of express-session: the date is kept in [_expires];
    [expires], [maxAge] and [toJSON] are found on the prototype, and [toJSON]
    returns the data fields only. *)
Definition session_cookie (expires : value) : value :=
  VObj [("path", VStr "/"); ("_expires", expires);
        ("originalMaxAge", VNull); ("httpOnly", VBool true)]
       [("expires", expires); ("maxAge", VNum (Fin 60000));
        ("toJSON", VFun (plain_cookie expires))].

Definition plain_session (expires : value) : value :=
  VObj [("cookie", plain_cookie expires); ("user", VStr "ann")] [].

Definition express_session (expires : value) : value :=
  VObj [("cookie", session_cookie expires); ("user", VStr "ann")] [].

(** A file-based store created with default options on an empty file. *)
Definition store : Store.instance := Store.NeDBStore Store.no_options [] None.

Definition with_interval (v : value) : Store.options :=
  {| Store.defaultExpiry := VUndefined; Store.inMemoryOnly := VUndefined;
     Store.filename := VStr "sessions.db"; Store.afterSerialization := VUndefined;
     Store.beforeDeserialization := VUndefined;
     Store.corruptAlertThreshold := VUndefined;
     Store.autoCompactInterval := v; Store.onload := VUndefined |}.

(** A datastore that fails every removal. *)
Definition removal_fails : faults :=
  fun c => match c with Remove _ => Some (Error "EIO") | _ => None end.

Definition record (id : string) (expires : option date) : doc :=
  {| _id := id; session := plain_session VNull; expiresAt := expires;
     createdAt := 0; updatedAt := 0 |}.

Definition holding (l : list doc) : Store.instance :=
  {| Store._defaultExpiry := Fin Store.TWO_WEEKS;
     Store.datastore := {| docs := l; log := []; autocompaction := None |};
     Store.emitted := [] |}.

(** Options asking for an in-memory store. *)
Definition in_memory (file interval : value) : Store.options :=
  {| Store.defaultExpiry := VNum (Fin 60000); Store.inMemoryOnly := VBool true;
     Store.filename := file; Store.afterSerialization := VUndefined;
     Store.beforeDeserialization := VUndefined;
     Store.corruptAlertThreshold := VNum (Fin 1);
     Store.autoCompactInterval := interval; Store.onload := VUndefined |}.

End Sample.

(* ================================================================== *)
(** * Runs of the store *)
(* ================================================================== *)

(** The stores a program can reach by calling the store's operations. *)
Module Run.
Import JS NeDB.

Inductive step `{Host} : Store.instance -> Store.instance -> Prop :=
| step_set now io sessionId session this :
    step this (snd (Store.set now io sessionId session this))
| step_touch now io sessionId session this :
    step this (snd (Store.touch now io sessionId session this))
| step_get now io sessionId this :
    step this (snd (Store.get now io sessionId this))
| step_all now io this :
    step this (snd (Store.all now io this))
| step_length now io this :
    step this (snd (Store.length now io this))
| step_destroy io sessionId this :
    step this (snd (Store.destroy io sessionId this))
| step_clear io this :
    step this (snd (Store.clear io this)).

Inductive reachable `{Host} (init : Store.instance) : Store.instance -> Prop :=
| reach_init : reachable init init
| reach_step this this' :
    reachable init this -> step this this' -> reachable init this'.

(** A record whose [expiresAt] field is present. *)
Definition has_expiry (d : doc) : Prop := expiresAt d <> None.

(** The datastore rejects the removal of this record. *)
Definition rejected (io : faults) (d : doc) : bool :=
  match io (Remove (_id d)) with Some _ => true | None => false end.

(** The own properties [set] stores for an object: every key with its value,
    the cookie through its [toJSON] when that is a function. *)
Definition stored_props `{Host} (own : list (string * value))
  : list (string * value) :=
  map (fun kv =>
         (fst kv,
          if (fst kv =? "cookie")%string then
            if is_function (Get (snd kv) "toJSON")
            then call (Get (snd kv) "toJSON") else snd kv
          else snd kv)) own.

(** The own properties that become own properties of what [set] stores:
    all but [__proto__], which assignment hands to the prototype setter. *)
Definition own_properties (own : list (string * value))
  : list (string * value) :=
  filter (fun kv => negb (fst kv =? "__proto__")%string) own.

(** The prototype chain of what [set] stores: that of an object literal,
    unless the session has an own [__proto__] holding an object or [null]. *)
Definition stored_prototype `{Host} (own proto : list (string * value))
  : list (string * value) :=
  match lookup "__proto__" own with
  | Some v =>
      match inherited_from Date_toJSON v with
      | Some inherited => inherited
      | None => proto
      end
  | None => proto
  end.

End Run.

(* ================================================================== *)
(** * Facts about the collection *)
(* ================================================================== *)

Import JS NeDB.

Section CollectionFacts.

Variable id : string.

Lemma matches_iff (d : doc) : matches id d = true <-> _id d = id.
Proof. unfold matches. apply String.eqb_eq. Qed.

Lemma matches_false_iff (d : doc) : matches id d = false <-> _id d <> id.
Proof. unfold matches. apply String.eqb_neq. Qed.

Lemma find_none_iff (l : list doc) :
  List.find (matches id) l = None <-> ~ In id (map _id l).
Proof.
  induction l as [|d l IH]; simpl.
  - tauto.
  - destruct (matches id d) eqn:E.
    + apply matches_iff in E. split; [discriminate | intros H; exfalso; auto].
    + apply matches_false_iff in E. rewrite IH. tauto.
Qed.

Lemma existsb_matches (l : list doc) :
  existsb (matches id) l =
  match List.find (matches id) l with Some _ => true | None => false end.
Proof.
  induction l as [|d l IH]; simpl; [reflexivity|].
  destruct (matches id d); simpl; auto.
Qed.

Lemma find_some_id (l : list doc) (d : doc) :
  List.find (matches id) l = Some d -> _id d = id /\ In d l.
Proof.
  intros H. apply find_some in H. destruct H as [Hin Hm].
  apply matches_iff in Hm. auto.
Qed.

Lemma update_first_absent (f : doc -> doc) (l : list doc) :
  List.find (matches id) l = None -> update_first id f l = l.
Proof.
  induction l as [|d l IH]; simpl; [reflexivity|].
  destruct (matches id d); [discriminate|]. intros H. now rewrite IH.
Qed.

Lemma remove_first_absent (l : list doc) :
  List.find (matches id) l = None -> remove_first id l = l.
Proof.
  induction l as [|d l IH]; simpl; [reflexivity|].
  destruct (matches id d); [discriminate|]. intros H. now rewrite IH.
Qed.

Lemma update_first_ids (f : doc -> doc) (l : list doc) :
  (forall d, _id (f d) = _id d) ->
  map _id (update_first id f l) = map _id l.
Proof.
  intros Hf. induction l as [|d l IH]; simpl; [reflexivity|].
  destruct (matches id d); simpl; [now rewrite Hf | now rewrite IH].
Qed.

Lemma update_first_find (f : doc -> doc) (l : list doc) :
  (forall d, _id (f d) = _id d) ->
  List.find (matches id) (update_first id f l) =
  option_map f (List.find (matches id) l).
Proof.
  intros Hf. induction l as [|d l IH]; simpl; [reflexivity|].
  destruct (matches id d) eqn:E; simpl.
  - assert (matches id (f d) = true) as ->; [|reflexivity].
    apply matches_iff. rewrite Hf. now apply matches_iff.
  - now rewrite E.
Qed.

(** The first match splits the collection; every document before it has
    another id. *)
Lemma find_split (l : list doc) (d : doc) :
  List.find (matches id) l = Some d ->
  exists l1 l2, l = l1 ++ d :: l2 /\ List.find (matches id) l1 = None.
Proof.
  induction l as [|x l IH]; simpl; [discriminate|].
  destruct (matches id x) eqn:E.
  - intros [= ->]. exists [], l. auto.
  - intros H. destruct (IH H) as (l1 & l2 & -> & Hn).
    exists (x :: l1), l2. simpl. rewrite E. auto.
Qed.

Lemma find_app_first (l1 l2 : list doc) (d : doc) :
  List.find (matches id) l1 = None -> _id d = id ->
  List.find (matches id) (l1 ++ d :: l2) = Some d.
Proof.
  intros Hn Hd. induction l1 as [|x l1 IH]; simpl in *.
  - apply matches_iff in Hd. now rewrite Hd.
  - destruct (matches id x); [discriminate|]. auto.
Qed.

Lemma update_first_split (f : doc -> doc) (l1 l2 : list doc) (d : doc) :
  List.find (matches id) l1 = None -> _id d = id ->
  update_first id f (l1 ++ d :: l2) = l1 ++ f d :: l2.
Proof.
  intros Hn Hd. induction l1 as [|x l1 IH]; simpl in *.
  - apply matches_iff in Hd. now rewrite Hd.
  - destruct (matches id x); [discriminate|]. now rewrite IH.
Qed.

Lemma remove_first_split (l1 l2 : list doc) (d : doc) :
  List.find (matches id) l1 = None -> _id d = id ->
  remove_first id (l1 ++ d :: l2) = l1 ++ l2.
Proof.
  intros Hn Hd. induction l1 as [|x l1 IH]; simpl in *.
  - apply matches_iff in Hd. now rewrite Hd.
  - destruct (matches id x); [discriminate|]. now rewrite IH.
Qed.

Lemma remove_first_incl (l : list doc) (d : doc) :
  In d (remove_first id l) -> In d l.
Proof.
  induction l as [|x l IH]; simpl; [tauto|].
  destruct (matches id x); simpl; tauto.
Qed.

Lemma remove_first_length (l : list doc) :
  (List.length l <= S (List.length (remove_first id l)))%nat.
Proof.
  induction l as [|x l IH]; simpl; [lia|].
  destruct (matches id x); simpl; lia.
Qed.

Lemma remove_first_unique (l : list doc) :
  unique_ids l -> unique_ids (remove_first id l).
Proof.
  unfold unique_ids. induction l as [|x l IH]; simpl; [auto|].
  intros H. inversion H as [|? ? Hx Hl]; subst.
  destruct (matches id x); simpl; [assumption|].
  constructor; [|auto].
  intros Hin. apply Hx. apply in_map_iff in Hin.
  destruct Hin as (d & Hd & Hin). apply in_map_iff.
  exists d. split; [assumption|]. now apply remove_first_incl.
Qed.

(** With a unique index, removing the first match removes the only one. *)
Lemma remove_first_gone (l : list doc) :
  unique_ids l -> List.find (matches id) (remove_first id l) = None.
Proof.
  unfold unique_ids. induction l as [|x l IH]; simpl; [reflexivity|].
  intros H. inversion H as [|? ? Hx Hl]; subst.
  destruct (matches id x) eqn:E; simpl.
  - apply matches_iff in E. apply find_none_iff. now rewrite <- E.
  - rewrite E. auto.
Qed.

Lemma update_first_unique (f : doc -> doc) (l : list doc) :
  (forall d, _id (f d) = _id d) ->
  unique_ids l -> unique_ids (update_first id f l).
Proof. unfold unique_ids. intros Hf H. now rewrite update_first_ids. Qed.

Lemma append_unique (l : list doc) (d : doc) :
  _id d = id -> List.find (matches id) l = None ->
  unique_ids l -> unique_ids (l ++ [d]).
Proof.
  unfold unique_ids. intros Hd Hn H. rewrite map_app. simpl.
  apply NoDup_app; [assumption | repeat constructor; simpl; tauto |].
  intros a Ha [<-|[]]. rewrite Hd in Ha. now apply find_none_iff in Hn.
Qed.

End CollectionFacts.

(* ================================================================== *)
(** * Reading a number with [parseInt] *)
(* ================================================================== *)

Section NumberPrint.

Lemma leading_digit_range (fuel : nat) (s : Z) :
  1 <= s -> s < 10 ^ Z.of_nat fuel -> 1 <= leading_digit fuel s <= 9.
Proof.
  revert s. induction fuel as [|fuel IH]; intros s Hs Hlt.
  - simpl in Hlt. lia.
  - simpl. destruct (s <? 10) eqn:E.
    + apply Z.ltb_lt in E. lia.
    + apply Z.ltb_ge in E. apply IH.
      * apply Z.div_le_lower_bound; lia.
      * apply Z.div_lt_upper_bound; [lia|].
        rewrite Nat2Z.inj_succ, Z.pow_succ_r in Hlt by lia. exact Hlt.
Qed.

Lemma first_digit_range (s : Z) : 1 <= s -> 1 <= first_digit s <= 9.
Proof.
  intros Hs. unfold first_digit. apply leading_digit_range; [assumption|].
  rewrite Nat2Z.inj_succ, Z2Nat.id by apply Z.log2_nonneg.
  destruct (Z.log2_spec s) as [_ Hlt]; [lia|].
  eapply Z.lt_le_trans; [exact Hlt|].
  apply Z.pow_le_mono_l. lia.
Qed.

Lemma shortest_digits_positive (fuel : nat) (k len x : Z) :
  1 <= x -> 1 <= shortest_digits fuel k len x.
Proof.
  intros Hx. revert k. induction fuel as [|fuel IH]; intros k; simpl; [exact Hx|].
  set (t := 10 ^ (len - k)).
  assert (0 <= x / t) as Hlo.
  { destruct (Z.eq_dec t 0) as [->|Hne]; [now rewrite Z.div_0_r|].
    apply Z.div_pos; [lia|]. assert (0 <= t) by (apply Z.pow_nonneg; lia). lia. }
  assert ((nearest_double (x / t * t) =? x) = true -> 1 <= x / t) as Hden.
  { intros Hd. apply Z.eqb_eq in Hd.
    destruct (Z.eq_dec (x / t) 0) as [H0|Hne]; [|lia].
    rewrite H0 in Hd. simpl in Hd. unfold nearest_double in Hd. simpl in Hd. lia. }
  destruct (nearest_double (x / t * t) =? x) eqn:E1;
    destruct (nearest_double ((x / t + 1) * t) =? x) eqn:E2; simpl;
    repeat match goal with |- context [if ?c then _ else _] => destruct c end;
    try (specialize (Hden eq_refl)); try lia; apply IH.
Qed.

Lemma exponent_digit_range (x : Z) : 1 <= x -> 1 <= exponent_digit x <= 9.
Proof.
  intros Hx. apply first_digit_range. now apply shortest_digits_positive.
Qed.

(** An integer below 10^21 is read back as it is. *)
Lemma parseInt_plain (z : Z) :
  Z.abs z < 10 ^ 21 -> parseInt (VNum (Fin z)) = Fin z.
Proof.
  intros Hz. unfold parseInt. apply Z.ltb_lt in Hz. now rewrite Hz.
Qed.

(** An integer of 10^21 or more is read as one digit. *)
Lemma parseInt_exponent (z : Z) :
  10 ^ 21 <= Z.abs z ->
  exists d, parseInt (VNum (Fin z)) = Fin (Z.sgn z * d) /\ 1 <= d <= 9.
Proof.
  intros Hz. unfold parseInt. apply Z.ltb_ge in Hz. rewrite Hz.
  exists (exponent_digit (Z.abs z)). split; [reflexivity|].
  apply exponent_digit_range. apply Z.ltb_ge in Hz.
  assert (0 < 10 ^ 21) by (apply Z.pow_pos_nonneg; lia). lia.
Qed.

Lemma parseInt_positive (z : Z) :
  0 < z -> exists de, parseInt (VNum (Fin z)) = Fin de /\ 0 < de.
Proof.
  intros Hz. destruct (Z_lt_le_dec (Z.abs z) (10 ^ 21)) as [Hs|Hl].
  - exists z. split; [now apply parseInt_plain | assumption].
  - destruct (parseInt_exponent z Hl) as (d & -> & Hd).
    exists (Z.sgn z * d). split; [reflexivity|].
    rewrite Z.sgn_pos by assumption. lia.
Qed.

End NumberPrint.

(* ================================================================== *)
(** * Construction *)
(* ================================================================== *)

Section Construction.

Variables (opts : Store.options) (persisted : list doc) (loadErr : option error).

Let this := Store.NeDBStore opts persisted loadErr.

(** What reaches [setAutocompactionInterval] for a store that is not
    in-memory. *)
Lemma autocompaction_durable :
  ToBoolean (Store.inMemoryOnly opts) = false ->
  autocompaction (Store.datastore this) =
  Store.aci_of (Store.autoCompactInterval opts).
Proof.
  intros H. unfold this, Store.NeDBStore, Store.normalized. rewrite H. simpl.
  destruct (ToBoolean (Store.filename opts)) eqn:E; simpl; [now rewrite E|].
  reflexivity.
Qed.

(** An in-memory store never schedules compaction. *)
Lemma autocompaction_in_memory :
  ToBoolean (Store.inMemoryOnly opts) = true ->
  autocompaction (Store.datastore this) = None.
Proof.
  intros H. unfold this, Store.NeDBStore, Store.normalized. rewrite H.
  reflexivity.
Qed.

Lemma autocompaction_null :
  Store.autoCompactInterval opts = VNull ->
  autocompaction (Store.datastore this) = None.
Proof.
  intros H. destruct (ToBoolean (Store.inMemoryOnly opts)) eqn:E.
  - now apply autocompaction_in_memory.
  - rewrite autocompaction_durable by assumption. now rewrite H.
Qed.

(** The default expiry the constructor keeps. *)
Lemma defaultExpiry_normalized :
  Store._defaultExpiry this =
  match Store.defaultExpiry opts with
  | VNum (Fin z) =>
      if 0 <? z then parseInt (VNum (Fin z)) else Fin 1209600000
  | _ => Fin 1209600000
  end.
Proof.
  unfold this, Store.NeDBStore, Store.normalized.
  destruct (ToBoolean (Store.inMemoryOnly opts)); cbn -[parseInt];
    destruct (Store.defaultExpiry opts) as [| | |[| |z]| | | |]; cbn -[parseInt];
    try reflexivity; destruct (0 <? z); reflexivity.
Qed.

(** The default expiry is the option, for an integer below 10^21 that is
    positive, and 14 days for what is no positive finite number. *)
Lemma defaultExpiry_configured :
  (forall z, Store.defaultExpiry opts = VNum (Fin z) -> z < 10 ^ 21) ->
  Store._defaultExpiry this = Spec.defaultExpiry_of (Store.defaultExpiry opts).
Proof.
  intros Hsmall. rewrite defaultExpiry_normalized. unfold Spec.defaultExpiry_of.
  destruct (Store.defaultExpiry opts) as [| | |[| |z]| | | |]; try reflexivity.
  destruct (0 <? z) eqn:E; [|reflexivity].
  apply Z.ltb_lt in E. apply parseInt_plain.
  specialize (Hsmall z eq_refl). lia.
Qed.

(** A default expiry of 10^21 or more is read as one digit. *)
Lemma defaultExpiry_exponent (z : Z) :
  Store.defaultExpiry opts = VNum (Fin z) -> 10 ^ 21 <= z ->
  exists d, Store._defaultExpiry this = Fin d /\ 1 <= d <= 9.
Proof.
  intros Hz Hl. rewrite defaultExpiry_normalized, Hz.
  assert (0 < 10 ^ 21) as Hp by (apply Z.pow_pos_nonneg; lia).
  assert ((0 <? z) = true) as -> by (apply Z.ltb_lt; lia).
  destruct (parseInt_exponent z) as (d & -> & Hd); [lia|].
  exists d. rewrite Z.sgn_pos by lia. split; [f_equal; lia | assumption].
Qed.

End Construction.

(** The default expiry of a constructed store is a positive number of
    milliseconds. *)
Lemma defaultExpiry_positive
    (opts : Store.options) (persisted : list doc) (loadErr : option error) :
  exists de,
    Store._defaultExpiry (Store.NeDBStore opts persisted loadErr) = Fin de /\
    0 < de.
Proof.
  rewrite defaultExpiry_normalized.
  destruct (Store.defaultExpiry opts) as [| | |[| |z]| | | |];
    try (exists 1209600000; split; [reflexivity | lia]).
  destruct (0 <? z) eqn:E.
  - apply parseInt_positive. now apply Z.ltb_lt.
  - exists 1209600000. split; [reflexivity | lia].
Qed.

Lemma aci_of_integer (z : Z) :
  Z.abs z < 10 ^ 21 ->
  Store.aci_of (VNum (Fin z)) = Some (Fin (Z.max 5000 (Z.min z 86400000))).
Proof.
  intros Hz. unfold Store.aci_of, Store.ONE_DAY.
  rewrite (parseInt_plain z Hz). simpl.
  destruct (z <? 5000) eqn:E1; [f_equal; f_equal; lia|].
  destruct (z <? 86400000) eqn:E2; f_equal; f_equal; lia.
Qed.

(** A number of 10^21 or more, read as one digit, falls below the range. *)
Lemma aci_of_exponent (z : Z) :
  10 ^ 21 <= Z.abs z -> Store.aci_of (VNum (Fin z)) = Some (Fin 5000).
Proof.
  intros Hz. unfold Store.aci_of, Store.ONE_DAY.
  destruct (parseInt_exponent z Hz) as (d & -> & Hd). simpl.
  assert (Z.sgn z * d < 5000) as Hlt.
  { destruct (Z.sgn_spec z) as [[_ ->]|[[_ ->]|[_ ->]]]; lia. }
  apply Z.ltb_lt in Hlt. now rewrite Hlt.
Qed.

Lemma aci_of_in_range (v : value) :
  is_null v = false ->
  exists a, Store.aci_of v = Some (Fin a) /\ 5000 <= a <= 86400000.
Proof.
  intros H. unfold Store.aci_of, Store.ONE_DAY. rewrite H. simpl.
  destruct (parseInt v) as [|s|z]; simpl.
  - exists 86400000. split; [reflexivity | lia].
  - destruct s; simpl; [exists 5000 | exists 86400000]; split; (reflexivity || lia).
  - destruct (z <? 5000) eqn:E1; [exists 5000; split; [reflexivity | lia]|].
    destruct (z <? 86400000) eqn:E2;
      [exists z | exists 86400000]; split; (reflexivity || lia).
Qed.




(* ================================================================== *)
(** * Reading: [get] *)
(* ================================================================== *)

(** The test the code makes agrees with the specification's notion of a live
    record on every record that carries a session payload. *)
Lemma is_live_spec (now : Z) (d : doc) :
  Spec.has_payload d -> Store.is_live now d = Spec.live now d.
Proof.
  unfold Spec.has_payload, Store.is_live, Store.no_expiresAt,
    Store.before_expiresAt, Spec.live.
  intros ->. destruct (expiresAt d) as [[t|]|]; simpl; auto using orb_false_r.
Qed.

(** Whatever the payload, a record the code takes for live is live. *)
Lemma is_live_sound (now : Z) (d : doc) :
  Store.is_live now d = true -> Spec.live now d = true.
Proof.
  unfold Store.is_live, Store.no_expiresAt, Store.before_expiresAt, Spec.live.
  destruct (expiresAt d) as [[t|]|]; simpl; auto.
  - now rewrite andb_false_r.
  - now rewrite andb_false_r.
Qed.

Section Get.

Variables (now : Z) (io : faults) (sessionId : string) (this : Store.instance).

Let before := docs (Store.datastore this).
Let result := Store.get now io sessionId this.

Lemma get_lookup_error (e : error) :
  io (FindOne sessionId) = Some e ->
  fst result = (Some e, VNull) /\
  docs (Store.datastore (snd result)) = before.
Proof.
  intros H. unfold result, Store.get, findOne. rewrite H. simpl. auto.
Qed.

Lemma get_missing :
  io (FindOne sessionId) = None ->
  List.find (matches sessionId) before = None ->
  fst result = (None, VNull) /\
  docs (Store.datastore (snd result)) = before.
Proof.
  intros H Hf. unfold result, Store.get, findOne. rewrite H. simpl.
  fold before. rewrite Hf. simpl. auto.
Qed.

Lemma get_live (d : doc) :
  io (FindOne sessionId) = None ->
  List.find (matches sessionId) before = Some d ->
  Store.is_live now d = true ->
  fst result = (None, session d) /\
  docs (Store.datastore (snd result)) = before.
Proof.
  intros H Hf Hl. unfold result, Store.get, findOne. rewrite H. simpl.
  fold before. rewrite Hf, Hl. simpl. auto.
Qed.

Lemma get_stale (d : doc) :
  io (FindOne sessionId) = None ->
  List.find (matches sessionId) before = Some d ->
  Store.is_live now d = false ->
  fst result = (io (Remove sessionId), VNull) /\
  log (Store.datastore (snd result)) =
    log (Store.datastore this) ++ [FindOne sessionId; Remove sessionId] /\
  docs (Store.datastore (snd result)) =
    match io (Remove sessionId) with
    | None => remove_first sessionId before
    | Some _ => before
    end.
Proof.
  intros H Hf Hl. unfold result, Store.get, findOne. rewrite H. simpl.
  fold before. rewrite Hf, Hl.
  unfold Store.destroy, remove. simpl.
  destruct (io (Remove sessionId)); simpl; rewrite <- app_assoc; auto.
Qed.

End Get.

(** C1.  When the lookup itself succeeds, [get] has exactly three outcomes on
    records that carry a session payload: no record with the id gives
    [(null, null)]; a live record (its [expiresAt] absent, or the current time
    strictly before it) gives [(null, payload)] and is left in place; a stale
    record is destroyed (one removal is issued for it) and the callback gets
    [(destroyError, null)].  A stale record is never returned as payload. *)
Theorem get_three_outcomes
    (now : Z) (io : faults) (sessionId : string) (this : Store.instance) :
  io (FindOne sessionId) = None ->
  Forall Spec.has_payload (docs (Store.datastore this)) ->
  let before := docs (Store.datastore this) in
  let result := Store.get now io sessionId this in
  let after := Store.datastore (snd result) in
  match List.find (matches sessionId) before with
  | None => fst result = (None, VNull) /\ docs after = before
  | Some d =>
      if Spec.live now d then
        fst result = (None, session d) /\ docs after = before
      else
        fst result = (io (Remove sessionId), VNull) /\
        log after =
          log (Store.datastore this) ++ [FindOne sessionId; Remove sessionId] /\
        docs after =
          match io (Remove sessionId) with
          | None => remove_first sessionId before
          | Some _ => before
          end
  end.
Proof.
  intros Hio Hp before result after.
  destruct (List.find (matches sessionId) before) as [d|] eqn:Hf.
  - assert (Spec.has_payload d) as Hd.
    { apply find_some_id in Hf. destruct Hf as [_ Hin].
      rewrite Forall_forall in Hp. now apply Hp. }
    rewrite <- (is_live_spec now d Hd).
    destruct (Store.is_live now d) eqn:Hl.
    + now apply get_live.
    + now apply get_stale with (d := d).
  - now apply get_missing.
Qed.

Lemma get_three_outcomes_witness :
  fst (Store.get 100 Sample.removal_fails "a"
         (Sample.holding [Sample.record "a" (Some (Some 100))]))
  = (Some (Error "EIO"), VNull).
Proof.
  pose proof (get_three_outcomes 100 Sample.removal_fails "a"
    (Sample.holding [Sample.record "a" (Some (Some 100))])
    eq_refl
    (Forall_cons _ (eq_refl : Spec.has_payload (Sample.record "a" (Some (Some 100))))
       (Forall_nil _))) as H.
  simpl in H. exact (proj1 H).
Defined.

(* ================================================================== *)
(** * Touching: [touch] *)
(* ================================================================== *)

(** The guard of [set] and [touch] holds exactly when the session, its cookie
    and the cookie's [expires] are all truthy. *)
Lemma cookie_expires_carries `{Host} (session : value) :
  ToBoolean (Store.cookie_expires session) = Spec.carries_expiration session.
Proof.
  unfold Store.cookie_expires, Spec.carries_expiration.
  destruct (ToBoolean session) eqn:Hs; simpl; [|exact Hs].
  destruct (ToBoolean (Get session "cookie")) eqn:Hc; simpl; [reflexivity|].
  exact Hc.
Qed.

Lemma modify_touchSetOp `{Host} (now : Z) (session : value) (d : doc) :
  modify now (Store.touchSetOp now session) d = Spec.touched now session d.
Proof.
  unfold modify, Spec.touched, Store.touchSetOp. simpl.
  rewrite <- cookie_expires_carries.
  destruct (ToBoolean (Store.cookie_expires session)); reflexivity.
Qed.

Lemma modify_id (now : Z) (m : modifier) (d : doc) : _id (modify now m d) = _id d.
Proof. reflexivity. Qed.

(** C6.  [touch] on an id that has no record never creates one: the documents
    are left as they were and the callback always receives an error, which,
    unless the datastore itself rejected the command, is
    [No Session exists with ID <id>] with the id as [JSON.stringify] prints
    it. *)
Theorem touch_missing_is_error `{Host}
    (now : Z) (io : faults) (sessionId : string) (session : value)
    (this : Store.instance) :
  List.find (matches sessionId) (docs (Store.datastore this)) = None ->
  let result := Store.touch now io sessionId session this in
  docs (Store.datastore (snd result)) = docs (Store.datastore this) /\
  (exists err, fst result = Some err) /\
  (io (Update sessionId (Store.touchSetOp now session) false) = None ->
   fst result =
     Some (Error ("No Session exists with ID " ++ JSON_stringify sessionId))).
Proof.
  intros Hf result. unfold result, Store.touch, update.
  rewrite existsb_matches. simpl. rewrite Hf.
  destruct (io (Update sessionId (Store.touchSetOp now session) false)) as [e|];
    simpl.
  - split; [reflexivity|]. split; [now exists e | discriminate].
  - split; [reflexivity|]. split; [eexists; reflexivity | reflexivity].
Qed.

Lemma touch_missing_is_error_witness :
  fst (@Store.touch Sample.host 7 no_faults "b"
         (Sample.express_session (VDate (Some 100)))
         (Sample.holding [Sample.record "a" None]))
  = Some (Error ("No Session exists with ID "
                 ++ String quote ("b" ++ String quote EmptyString))).
Proof.
  exact (proj2 (proj2 (@touch_missing_is_error Sample.host 7 no_faults "b"
    (Sample.express_session (VDate (Some 100)))
    (Sample.holding [Sample.record "a" None]) eq_refl)) eq_refl).
Defined.

(** C7.  [touch] on an existing record, accepted by the datastore, reports no
    error and replaces that one record, in place, by a record with the same
    id, session payload and [createdAt], with [updatedAt] set to the time of
    the call, and with [expiresAt] set to [new Date(session.cookie.expires)]
    if and only if the supplied session's cookie carries an expiration (the
    session, its cookie and the cookie's [expires] are all truthy); every other
    record is left as it was. *)
Theorem touch_updates_one_record `{Host}
    (now : Z) (io : faults) (sessionId : string) (session : value)
    (this : Store.instance) (d : doc) :
  List.find (matches sessionId) (docs (Store.datastore this)) = Some d ->
  (forall m, io (Update sessionId m false) = None) ->
  let result := Store.touch now io sessionId session this in
  let d' :=
    {| _id := _id d;
       NeDB.session := NeDB.session d;
       expiresAt :=
         if ToBoolean session &&
            ToBoolean (Get session "cookie") &&
            ToBoolean (Get (Get session "cookie") "expires")
         then Some (new_Date (Get (Get session "cookie") "expires"))
         else expiresAt d;
       createdAt := createdAt d;
       updatedAt := now |} in
  fst result = None /\
  exists l1 l2,
    docs (Store.datastore this) = l1 ++ d :: l2 /\
    docs (Store.datastore (snd result)) = l1 ++ d' :: l2.
Proof.
  intros Hf Hio result d'. unfold result, Store.touch, update.
  rewrite Hio, existsb_matches. simpl. rewrite Hf. simpl.
  split; [reflexivity|].
  destruct (find_split _ _ _ Hf) as (l1 & l2 & Hl & Hn).
  exists l1, l2. split; [assumption|]. rewrite Hl.
  apply find_some_id in Hf. destruct Hf as [Hid _].
  rewrite (update_first_split _ _ _ _ _ Hn Hid).
  rewrite modify_touchSetOp. reflexivity.
Qed.

Lemma touch_updates_one_record_witness :
  docs (Store.datastore (snd (@Store.touch Sample.host 7 no_faults "b"
         (Sample.express_session (VDate (Some 100)))
         (Sample.holding [Sample.record "a" None; Sample.record "b" None]))))
  = [Sample.record "a" None;
     {| _id := "b"; NeDB.session := Sample.plain_session VNull;
        expiresAt := Some (Some 100); createdAt := 0; updatedAt := 7 |}] /\
  docs (Store.datastore (snd (@Store.touch Sample.host 7 no_faults "b"
         (Sample.plain_session VNull)
         (Sample.holding [Sample.record "a" None;
                          Sample.record "b" (Some (Some 9))]))))
  = [Sample.record "a" None;
     {| _id := "b"; NeDB.session := Sample.plain_session VNull;
        expiresAt := Some (Some 9); createdAt := 0; updatedAt := 7 |}].
Proof.
  split.
  - destruct (@touch_updates_one_record Sample.host 7 no_faults "b"
      (Sample.express_session (VDate (Some 100)))
      (Sample.holding [Sample.record "a" None; Sample.record "b" None])
      (Sample.record "b" None) eq_refl (fun _ => eq_refl))
      as (_ & l1 & l2 & Hb & Ha).
    destruct l1 as [|x [|y l1]]; cbv in Hb.
    + discriminate.
    + injection Hb as <- <-. exact Ha.
    + destruct l1; discriminate.
  - destruct (@touch_updates_one_record Sample.host 7 no_faults "b"
      (Sample.plain_session VNull)
      (Sample.holding [Sample.record "a" None; Sample.record "b" (Some (Some 9))])
      (Sample.record "b" (Some (Some 9))) eq_refl (fun _ => eq_refl))
      as (_ & l1 & l2 & Hb & Ha).
    destruct l1 as [|x [|y l1]]; cbv in Hb.
    + discriminate.
    + injection Hb as <- <-. exact Ha.
    + destruct l1; discriminate.
Defined.

(* ================================================================== *)
(** * Writing: [set] *)
(* ================================================================== *)

Section Update.

Variables (now : Z) (io : faults) (id : string) (m : modifier) (upsert : bool)
  (ds : Datastore).

Lemma update_docs :
  docs (snd (update now io id m upsert ds)) =
  match io (Update id m upsert) with
  | Some _ => docs ds
  | None =>
      match List.find (matches id) (docs ds) with
      | Some _ => update_first id (modify now m) (docs ds)
      | None => if upsert then docs ds ++ [inserted now id m] else docs ds
      end
  end.
Proof.
  unfold update. rewrite existsb_matches. simpl.
  destruct (io (Update id m upsert)); [reflexivity|].
  destruct (List.find (matches id) (docs ds)); [reflexivity|].
  destruct upsert; reflexivity.
Qed.

Lemma update_unique :
  unique_ids (docs ds) -> unique_ids (docs (snd (update now io id m upsert ds))).
Proof.
  intros Hu. rewrite update_docs.
  destruct (io (Update id m upsert)); [assumption|].
  destruct (List.find (matches id) (docs ds)) eqn:Hf.
  - apply update_first_unique; [apply modify_id | assumption].
  - destruct upsert; [|assumption].
    now apply append_unique with (id := id).
Qed.

(** After an accepted upsert the first record with the id is the one written. *)
Lemma upsert_find :
  io (Update id m true) = None ->
  List.find (matches id) (docs (snd (update now io id m true ds))) =
  Some match List.find (matches id) (docs ds) with
       | Some d => modify now m d
       | None => inserted now id m
       end.
Proof.
  intros Hio. unfold update. rewrite Hio, existsb_matches. simpl.
  destruct (List.find (matches id) (docs ds)) as [d|] eqn:Hf; simpl.
  - rewrite update_first_find by apply modify_id. now rewrite Hf.
  - replace (docs ds ++ [inserted now id m])
      with (docs ds ++ inserted now id m :: []) by reflexivity.
    now apply find_app_first.
Qed.

Lemma upsert_result :
  io (Update id m true) = None ->
  exists newDoc, fst (update now io id m true ds) = (None, 1, newDoc).
Proof.
  intros Hio. unfold update. rewrite Hio. simpl.
  destruct (existsb (matches id) (docs ds)); eexists; reflexivity.
Qed.

End Update.

Section Objects.

Lemma lookup_none_iff (k : string) (l : list (string * value)) :
  lookup k l = None <-> ~ In k (map fst l).
Proof.
  induction l as [|[k' v] l IH]; simpl; [tauto|].
  destruct (String.eqb_spec k' k) as [->|Hne].
  - split; [discriminate | intros Hn; exfalso; auto].
  - rewrite IH. tauto.
Qed.

Lemma assign_fresh (k : string) (v : value) (l : list (string * value)) :
  lookup k l = None -> assign k v l = l ++ [(k, v)].
Proof.
  induction l as [|[k' v'] l IH]; simpl; [reflexivity|].
  destruct (k' =? k)%string; [discriminate|]. intros Hn. now rewrite IH.
Qed.

Lemma lookup_app_first (k : string) (v : value) (l1 l2 : list (string * value)) :
  lookup k l1 = None -> lookup k (l1 ++ (k, v) :: l2) = Some v.
Proof.
  induction l1 as [|[k' v'] l1 IH]; simpl.
  - now rewrite String.eqb_refl.
  - destruct (k' =? k)%string; [discriminate | assumption].
Qed.

Lemma lookup_in (k : string) (v : value) (l : list (string * value)) :
  NoDup (map fst l) -> In (k, v) l -> lookup k l = Some v.
Proof.
  induction l as [|[k' v'] l IH]; simpl; [tauto|].
  intros Hnd [[= -> ->]|Hin]; [now rewrite String.eqb_refl|].
  inversion Hnd as [|? ? Hk Hnd']; subst.
  destruct (String.eqb_spec k' k) as [->|Hne]; [|auto].
  exfalso. apply Hk. apply in_map_iff. now exists (k, v).
Qed.

End Objects.

Section Serialization.

Context `{Host}.

Lemma serialized_is_object (session sess : value) :
  Store.serialized session = Normal sess ->
  exists own proto, sess = VObj own proto.
Proof.
  unfold Store.serialized. destruct (Object_keys session); [|discriminate].
  destruct (fold_left _ _ _); [|discriminate].
  intros [= <-]. eauto.
Qed.

Lemma not_nullish_GetV (v : value) (k : string) :
  ToBoolean v = true -> GetV v k = Normal (Get v k).
Proof. destruct v; simpl; (discriminate || reflexivity). Qed.

Lemma copy_keys_return (session : value) (keys : list string)
    (sess : list (string * value) * list (string * value)) :
  ToBoolean (Get session "cookie") = true ->
  exists sess', fold_left (Store.copy_key session) keys (Normal sess) = Normal sess'.
Proof.
  intros Hc. revert sess. induction keys as [|key keys IH]; intros sess; simpl.
  - eauto.
  - destruct (String.eqb_spec key "cookie") as [->|Hne].
    + rewrite (not_nullish_GetV _ _ Hc).
      destruct (is_function (Get (Get session "cookie") "toJSON")); apply IH.
    + apply IH.
Qed.

(** [set] does not throw on a session that has a cookie. *)
Lemma serialized_returns (session : value) :
  ToBoolean session = true ->
  ToBoolean (Get session "cookie") = true ->
  exists sess, Store.serialized session = Normal sess.
Proof.
  intros Hs Hc. unfold Store.serialized.
  destruct (Object_keys session) as [keys|e] eqn:Hk.
  - destruct (copy_keys_return session keys ([], []) Hc) as [sess' ->]. eauto.
  - destruct session; simpl in *; discriminate.
Qed.

Lemma own_properties_app (l1 l2 : list (string * value)) :
  Run.own_properties (l1 ++ l2) = Run.own_properties l1 ++ Run.own_properties l2.
Proof. apply filter_app. Qed.

Lemma stored_props_app (l1 l2 : list (string * value)) :
  Run.stored_props (l1 ++ l2) = Run.stored_props l1 ++ Run.stored_props l2.
Proof. apply map_app. Qed.

Lemma stored_props_fresh (k : string) (l : list (string * value)) :
  lookup k l = None -> lookup k (Run.stored_props (Run.own_properties l)) = None.
Proof.
  rewrite !lookup_none_iff. intros Hn Hin. apply Hn.
  unfold Run.stored_props, Run.own_properties in Hin.
  rewrite map_map in Hin. simpl in Hin.
  apply in_map_iff in Hin. destruct Hin as (kv & <- & Hkv).
  apply filter_In in Hkv. now apply in_map.
Qed.

(** The loop of [set] on an object with distinct own keys whose cookie, if it
    has one of its own, is neither [null] nor [undefined]. *)
Lemma copy_keys_stored (proto done todo pr : list (string * value)) :
  let session := VObj (done ++ todo) proto in
  NoDup (map fst (done ++ todo)) ->
  (forall c, In ("cookie"%string, c) todo -> c <> VNull /\ c <> VUndefined) ->
  fold_left (Store.copy_key session) (map fst todo)
    (Normal (Run.stored_props (Run.own_properties done), pr))
  = Normal (Run.stored_props (Run.own_properties (done ++ todo)),
            Run.stored_prototype todo pr).
Proof.
  revert done pr.
  induction todo as [|[k v] todo IH]; intros done pr session Hnd Hc.
  - simpl. now rewrite app_nil_r.
  - assert (lookup k done = None) as Hfresh.
    { apply lookup_none_iff. rewrite map_app in Hnd. simpl in Hnd.
      apply NoDup_remove_2 in Hnd. intros Hin. apply Hnd.
      apply in_or_app. auto. }
    assert (lookup k todo = None) as Hlater.
    { apply lookup_none_iff. rewrite map_app in Hnd. simpl in Hnd.
      apply NoDup_app_remove_l in Hnd. now inversion Hnd. }
    pose proof (stored_props_fresh k done Hfresh) as Hfresh'.
    assert (Get session k = v) as Hget.
    { unfold session. simpl. now rewrite (lookup_app_first k v done todo Hfresh). }
    assert (Store.copy_key session
              (Normal (Run.stored_props (Run.own_properties done), pr)) k
            = Normal (Run.stored_props (Run.own_properties (done ++ [(k, v)])),
                      Run.stored_prototype [(k, v)] pr)) as Hstep.
    { rewrite own_properties_app, stored_props_app.
      unfold Store.copy_key. rewrite Hget.
      destruct (k =? "cookie")%string eqn:Hk.
      - apply String.eqb_eq in Hk. subst k.
        assert (GetV v "toJSON" = Normal (Get v "toJSON")) as ->.
        { destruct (Hc v) as [Hn Hu]; [now left|].
          destruct v; simpl; congruence. }
        unfold put, Run.stored_prototype. simpl.
        destruct (is_function (Get v "toJSON")) eqn:Hf; simpl;
          rewrite assign_fresh by assumption; now rewrite ?Hf.
      - unfold put, Run.stored_prototype, Run.own_properties. simpl.
        destruct (k =? "__proto__")%string eqn:Hp; simpl.
        + rewrite app_nil_r.
          now destruct (inherited_from Date_toJSON v).
        + rewrite assign_fresh by assumption. now rewrite Hk. }
    change (fold_left (Store.copy_key session) (map fst todo)
              (Store.copy_key session
                 (Normal (Run.stored_props (Run.own_properties done), pr)) k)
            = Normal (Run.stored_props (Run.own_properties (done ++ (k, v) :: todo)),
                      Run.stored_prototype ((k, v) :: todo) pr)).
    rewrite Hstep.
    assert (done ++ (k, v) :: todo = (done ++ [(k, v)]) ++ todo) as Heq
      by now rewrite <- app_assoc.
    assert (Run.stored_prototype ((k, v) :: todo) pr =
            Run.stored_prototype todo (Run.stored_prototype [(k, v)] pr)) as ->.
    { unfold Run.stored_prototype. simpl.
      destruct (k =? "__proto__")%string eqn:Hp; [|reflexivity].
      apply String.eqb_eq in Hp. subst k. now rewrite Hlater. }
    unfold session in *. rewrite Heq in *. apply IH; [assumption|].
    intros c Hin. apply Hc. now right.
Qed.

(** What [set] stores for an object with distinct own keys. *)
Lemma serialized_stored (own proto : list (string * value)) :
  NoDup (map fst own) ->
  (forall c, In ("cookie"%string, c) own -> c <> VNull /\ c <> VUndefined) ->
  Store.serialized (VObj own proto) =
  Normal (VObj (Run.stored_props (Run.own_properties own))
               (Run.stored_prototype own [])).
Proof.
  intros Hnd Hc. unfold Store.serialized.
  change (Object_keys (VObj own proto))
    with (Normal (A := list string) (map fst own)).
  pose proof (copy_keys_stored proto [] own [] Hnd Hc) as Hk. simpl in Hk.
  cbv beta iota. now rewrite Hk.
Qed.

(** Without an own [__proto__] every own property is stored and the
    prototype is that of an object literal. *)
Lemma no_proto_key (own : list (string * value)) :
  ~ In "__proto__"%string (map fst own) ->
  Run.own_properties own = own /\
  forall pr, Run.stored_prototype own pr = pr.
Proof.
  intros Hn. split.
  - unfold Run.own_properties. induction own as [|[k v] own IH]; simpl in *;
      [reflexivity|].
    destruct (String.eqb_spec k "__proto__") as [->|Hne]; simpl.
    + exfalso. auto.
    + rewrite IH; auto.
  - intros pr. unfold Run.stored_prototype.
    apply lookup_none_iff in Hn. now rewrite Hn.
Qed.

(** A plain object whose cookie has no [toJSON] is stored as it is. *)
Lemma stored_props_plain (own : list (string * value)) :
  NoDup (map fst own) ->
  (forall c, lookup "cookie" own = Some c -> is_function (Get c "toJSON") = false) ->
  Run.stored_props own = own.
Proof.
  intros Hnd Hc. unfold Run.stored_props.
  assert (forall k v, In (k, v) own -> k = "cookie"%string ->
                      is_function (Get v "toJSON") = false) as Hin.
  { intros k v Hkv ->. apply Hc. clear Hc.
    induction own as [|[k' v'] own IH]; simpl in *; [tauto|].
    inversion Hnd as [|? ? Hk Hnd']; subst.
    destruct Hkv as [[= -> ->]|Hkv]; [now rewrite String.eqb_refl|].
    destruct (String.eqb_spec k' "cookie") as [->|Hne]; [|auto].
    exfalso. apply Hk. apply in_map_iff. now exists ("cookie"%string, v). }
  clear Hc Hnd. induction own as [|[k v] own IH]; simpl; [reflexivity|].
  rewrite IH by (intros; eapply Hin; [right|]; eauto). f_equal.
  destruct (String.eqb_spec k "cookie") as [->|Hne]; [|reflexivity].
  now rewrite (Hin "cookie"%string v (or_introl eq_refl) eq_refl).
Qed.

End Serialization.

Section SetFacts.

Context `{Host}.
Variables (now : Z) (io : faults) (sessionId : string) (session : value)
  (this : Store.instance).

Let result := Store.set now io sessionId session this.

Lemma set_throws (e : error) :
  Store.serialized session = Throw e -> result = (Throw e, this).
Proof. intros Hs. unfold result, Store.set. now rewrite Hs. Qed.

Lemma set_datastore :
  Store.datastore (snd result) = Store.datastore this \/
  exists m, Store.datastore (snd result) =
            snd (update now io sessionId m true (Store.datastore this)).
Proof.
  unfold result, Store.set.
  destruct (Store.serialized session) as [sess|e]; [|now left].
  right. eexists.
  destruct (update _ _ _ _ _ _) as [[[err n] newDoc] ds] eqn:E.
  simpl. now rewrite E.
Qed.

Lemma set_defaultExpiry :
  Store._defaultExpiry (snd result) = Store._defaultExpiry this.
Proof.
  unfold result, Store.set.
  destruct (Store.serialized session); [|reflexivity].
  destruct (update _ _ _ _ _ _) as [[[err n] newDoc] ds]. reflexivity.
Qed.

Lemma set_unique :
  unique_ids (docs (Store.datastore this)) ->
  unique_ids (docs (Store.datastore (snd result))).
Proof.
  intros Hu. destruct set_datastore as [->|[m ->]]; [assumption|].
  now apply update_unique.
Qed.

(** An accepted [set] reports no error and leaves, as the record of the id, a
    record holding the serialised session and the computed expiry. *)
Lemma set_stored (sess : value) :
  Store.serialized session = Normal sess ->
  (forall m, io (Update sessionId m true) = None) ->
  fst result = Normal None /\
  exists d,
    List.find (matches sessionId) (docs (Store.datastore (snd result))) = Some d /\
    _id d = sessionId /\
    NeDB.session d = sess /\
    expiresAt d = Some (Store.expirationDate now this session).
Proof.
  intros Hs Hio. unfold result, Store.set. rewrite Hs.
  set (m := {| set_session := Some sess;
               set_expiresAt := Some (Store.expirationDate now this session);
               set_updatedAt := None |}).
  pose proof (upsert_find now io sessionId m (Store.datastore this) (Hio m)) as Hf.
  destruct (upsert_result now io sessionId m (Store.datastore this) (Hio m))
    as [newDoc Hr].
  destruct (update now io sessionId m true (Store.datastore this))
    as [[[err n] nd] ds] eqn:E.
  simpl in Hf, Hr. injection Hr as -> -> ->. simpl.
  split; [now destruct newDoc|].
  eexists. split; [exact Hf|].
  destruct (List.find (matches sessionId) (docs (Store.datastore this))) as [d|] eqn:Hd;
    simpl; repeat split; try reflexivity.
  now apply find_some_id in Hd.
Qed.

End SetFacts.




(* ================================================================== *)
(** * Listing and counting: [all], [length] *)
(* ================================================================== *)

Section All.

Variables (now : Z) (io : faults).

Lemma filter_live_kept (l : list doc) (this : Store.instance) :
  fst (Store.filter_live now io l this) = Spec.live_records now l.
Proof.
  revert this. induction l as [|d l IH]; intros this; simpl; [reflexivity|].
  destruct (Store.is_live now d).
  - specialize (IH this).
    destruct (Store.filter_live now io l this) as [kept this']. simpl in *.
    now rewrite IH.
  - destruct (Store.destroy io (_id d) this) as [e this']. apply IH.
Qed.

Lemma filter_live_log (l : list doc) (this : Store.instance) :
  log (Store.datastore (snd (Store.filter_live now io l this))) =
  log (Store.datastore this)
    ++ map (fun d => Remove (_id d)) (Spec.stale_records now l).
Proof.
  revert this. induction l as [|d l IH]; intros this; simpl.
  - now rewrite app_nil_r.
  - destruct (Store.is_live now d); simpl.
    + specialize (IH this).
      destruct (Store.filter_live now io l this) as [kept this']. exact IH.
    + unfold Store.destroy, remove. simpl.
      destruct (io (Remove (_id d))); simpl;
        rewrite IH; simpl; now rewrite <- app_assoc.
Qed.

Lemma filter_live_emitted (l : list doc) (this : Store.instance) :
  Store.emitted (snd (Store.filter_live now io l this)) =
  Store.emitted this ++ Spec.destroy_failures io (Spec.stale_records now l).
Proof.
  revert this. induction l as [|d l IH]; intros this; simpl.
  - now rewrite app_nil_r.
  - destruct (Store.is_live now d); simpl.
    + specialize (IH this).
      destruct (Store.filter_live now io l this) as [kept this']. exact IH.
    + unfold Store.destroy, remove. simpl.
      destruct (io (Remove (_id d))); simpl; rewrite IH; simpl;
        [now rewrite <- app_assoc | reflexivity].
Qed.

(** With a unique index and a datastore that accepts the removals, the
    filtering leaves exactly the live records behind. *)
Lemma filter_live_docs (pre l : list doc) (this : Store.instance) :
  (forall id, io (Remove id) = None) ->
  docs (Store.datastore this) = pre ++ l ->
  unique_ids (pre ++ l) ->
  docs (Store.datastore (snd (Store.filter_live now io l this))) =
  pre ++ Spec.live_records now l.
Proof.
  intros Hio. revert pre this.
  induction l as [|d l IH]; intros pre this Hd Hu; simpl.
  - exact Hd.
  - destruct (Store.is_live now d) eqn:Hl; simpl.
    + assert (pre ++ d :: l = (pre ++ [d]) ++ l) as Heq
        by now rewrite <- app_assoc.
      specialize (IH (pre ++ [d]) this). rewrite <- Heq in IH.
      destruct (Store.filter_live now io l this) as [kept this']. simpl in *.
      rewrite IH by assumption. now rewrite <- app_assoc.
    + unfold Store.destroy, remove. rewrite Hio. simpl.
      apply IH.
      * simpl. rewrite Hd. apply remove_first_split; [|reflexivity].
        apply find_none_iff. unfold unique_ids in Hu. rewrite map_app in Hu.
        simpl in Hu. apply NoDup_remove_2 in Hu. intros Hin. apply Hu.
        apply in_or_app. auto.
      * unfold unique_ids in *. rewrite map_app in *. simpl in Hu.
        now apply NoDup_remove_1 in Hu.
Qed.

End All.

Section AllFacts.

Variables (now : Z) (io : faults) (this : Store.instance).

Hypothesis find_accepted : io Find = None.

Let before := docs (Store.datastore this).
Let result := Store.all now io this.
Let started :=
  Store.with_datastore (received Find (Store.datastore this)) this.

Lemma all_unfold :
  result =
  ((None, Some (map session (fst (Store.filter_live now io before started)))),
   snd (Store.filter_live now io before started)).
Proof.
  unfold result, Store.all, find. rewrite find_accepted. simpl.
  fold before. fold started.
  now destruct (Store.filter_live now io before started).
Qed.

Lemma all_callback :
  fst result = (None, Some (map session (Spec.live_records now before))).
Proof. rewrite all_unfold. simpl. now rewrite filter_live_kept. Qed.

Lemma all_log :
  log (Store.datastore (snd result)) =
  log (Store.datastore this)
    ++ Find :: map (fun d => Remove (_id d)) (Spec.stale_records now before).
Proof.
  rewrite all_unfold. simpl. rewrite filter_live_log. simpl.
  now rewrite <- app_assoc.
Qed.

Lemma all_emitted :
  Store.emitted (snd result) =
  Store.emitted this
    ++ Spec.destroy_failures io (Spec.stale_records now before).
Proof. rewrite all_unfold. simpl. now rewrite filter_live_emitted. Qed.

Lemma all_docs :
  unique_ids before -> (forall id, io (Remove id) = None) ->
  docs (Store.datastore (snd result)) = Spec.live_records now before.
Proof.
  intros Hu Hio. rewrite all_unfold. simpl.
  now rewrite (filter_live_docs now io [] before started Hio).
Qed.

End AllFacts.

(** C4.  When the query succeeds, [all] calls back with no error and exactly
    the payloads of the records that pass the test [get] makes, in the order
    the collection returned them; it issues one removal for every stale record
    it met; the removals the datastore rejects are emitted as ['error'] events
    and never reach the callback; and when the removals are accepted on a
    collection with unique ids only the live records remain. *)
Theorem all_returns_live_records
    (now : Z) (io : faults) (this : Store.instance) :
  io Find = None ->
  let before := docs (Store.datastore this) in
  let stale := Spec.stale_records now before in
  let result := Store.all now io this in
  fst result = (None, Some (map session (filter (Store.is_live now) before))) /\
  log (Store.datastore (snd result)) =
    log (Store.datastore this) ++ Find :: map (fun d => Remove (_id d)) stale /\
  Store.emitted (snd result) =
    Store.emitted this ++ Spec.destroy_failures io stale /\
  (unique_ids before -> (forall id, io (Remove id) = None) ->
   docs (Store.datastore (snd result)) = filter (Store.is_live now) before).
Proof.
  intros Hio before stale result. repeat split.
  - now apply all_callback.
  - now apply all_log.
  - now apply all_emitted.
  - now apply all_docs.
Qed.

Lemma all_returns_live_records_witness :
  let this := Sample.holding [Sample.record "a" (Some (Some 100));
                              Sample.record "b" (Some (Some 300));
                              Sample.record "c" None] in
  let result := Store.all 200 Sample.removal_fails this in
  fst result = (None, Some [Sample.plain_session VNull; Sample.plain_session VNull]) /\
  log (Store.datastore (snd result)) = [Find; Remove "a"] /\
  Store.emitted (snd result) = [Store.EvError (Error "EIO")].
Proof.
  destruct (all_returns_live_records 200 Sample.removal_fails
    (Sample.holding [Sample.record "a" (Some (Some 100));
                     Sample.record "b" (Some (Some 300));
                     Sample.record "c" None]) eq_refl) as (H1 & H2 & H3 & _).
  exact (conj H1 (conj H2 H3)).
Defined.

(** C5.  [length] reports what [all] reports, with the count of [all]'s
    payloads in place of the payloads: when the query succeeds that is the
    number of live records, which never exceeds the number of documents and
    is strictly smaller as soon as one stale record is still stored. *)
Theorem length_counts_live_records
    (now : Z) (io : faults) (this : Store.instance) :
  let before := docs (Store.datastore this) in
  let listed := Store.all now io this in
  let result := Store.length now io this in
  fst result =
    (fst (fst listed), Z.of_nat (List.length (orelse (snd (fst listed)) []))) /\
  snd result = snd listed /\
  (io Find = None ->
   fst result =
     (None, Z.of_nat (List.length (filter (Store.is_live now) before))) /\
   snd (fst result) <= Z.of_nat (List.length before) /\
   (forall d, In d before -> Store.is_live now d = false ->
      snd (fst result) < Z.of_nat (List.length before))).
Proof.
  intros before listed result.
  assert (fst result =
    (fst (fst listed), Z.of_nat (List.length (orelse (snd (fst listed)) []))) /\
    snd result = snd listed) as [H1 H2].
  { unfold result, listed, Store.length.
    destruct (Store.all now io this) as [[err sessions] this']. auto. }
  split; [exact H1|]. split; [exact H2|].
  intros Hio. rewrite H1. unfold listed.
  rewrite (all_callback now io this Hio). simpl.
  rewrite length_map. fold before. unfold Spec.live_records.
  split; [reflexivity|]. split.
  - apply inj_le. apply filter_length_le.
  - intros d Hin Hs. apply inj_lt.
    clear -Hin Hs. induction before as [|x l IH]; simpl in *; [tauto|].
    destruct Hin as [->|Hin].
    + rewrite Hs. pose proof (filter_length_le (Store.is_live now) l). lia.
    + specialize (IH Hin). destruct (Store.is_live now x); simpl; lia.
Qed.

Lemma length_counts_live_records_witness :
  fst (Store.length 200 no_faults
         (Sample.holding [Sample.record "a" (Some (Some 100));
                          Sample.record "b" (Some (Some 300));
                          Sample.record "c" None]))
  = (None, 2).
Proof.
  destruct (length_counts_live_records 200 no_faults
    (Sample.holding [Sample.record "a" (Some (Some 100));
                     Sample.record "b" (Some (Some 300));
                     Sample.record "c" None])) as (_ & _ & H).
  exact (proj1 (H eq_refl)).
Defined.

(** X23.  The earlier [index.js] counts the documents and lists all of them:
    its [length] too is the length of what its [all] returns. *)
Lemma legacy_length_counts_all (io : faults) (ds : Datastore) :
  io Find = None -> io Count = None ->
  exists sessions,
    fst (Legacy.all io ds) = (None, Some sessions) /\
    fst (Legacy.length io ds) = (None, Some (Z.of_nat (List.length sessions))).
Proof.
  intros Hf Hc. unfold Legacy.all, Legacy.length, find, count.
  rewrite Hf, Hc. simpl. eexists. split; [reflexivity|].
  now rewrite length_map.
Qed.

(* ================================================================== *)
(** * Sequences of calls *)
(* ================================================================== *)

Section Cookies.

Context `{Host}.

Lemma string_props_strings (s k : string) (v : value) :
  lookup k (string_props s) = Some v -> exists c, v = VStr c.
Proof.
  unfold string_props.
  generalize (map index_key (seq 0 (List.length (chars s)))) as keys.
  induction (chars s) as [|c cs IH]; intros [|key keys]; simpl;
    try discriminate.
  destruct (key =? k)%string; [intros [= <-]; eauto | apply IH].
Qed.

(** Only an object has properties that are Date objects or objects. *)
Lemma Get_compound (v : value) (k : string) :
  match Get v k with VDate _ | VObj _ _ => True | _ => False end ->
  exists own proto, v = VObj own proto.
Proof.
  destruct v; simpl; try tauto.
  - destruct (lookup k (string_props s)) as [x|] eqn:E; [|tauto].
    apply string_props_strings in E. destruct E as [c ->]. tauto.
  - destruct (k =? "toJSON")%string; tauto.
  - eauto.
Qed.

Lemma cookie_expires_truthy (session : value) :
  ToBoolean (Store.cookie_expires session) = true ->
  ToBoolean session = true /\
  ToBoolean (Get session "cookie") = true /\
  Store.cookie_expires session = Get (Get session "cookie") "expires".
Proof.
  unfold Store.cookie_expires.
  destruct (ToBoolean session) eqn:Hs; [|congruence].
  destruct (ToBoolean (Get session "cookie")) eqn:Hc; [|congruence].
  auto.
Qed.

Lemma expires_date_truthy (session : value) (t : option Z) :
  Get (Get session "cookie") "expires" = VDate t ->
  Store.cookie_expires session = VDate t.
Proof.
  intros He.
  destruct (Get_compound (Get session "cookie") "expires") as (own & proto & Hc).
  { now rewrite He. }
  destruct (Get_compound session "cookie") as (own' & proto' & Hs).
  { now rewrite Hc. }
  unfold Store.cookie_expires. rewrite Hc in *. now rewrite Hs.
Qed.

End Cookies.

Section Destroy.

Variables (io : faults) (sessionId : string) (this : Store.instance).

Lemma destroy_result : fst (Store.destroy io sessionId this) = io (Remove sessionId).
Proof.
  unfold Store.destroy, remove. now destruct (io (Remove sessionId)).
Qed.

Lemma destroy_docs :
  io (Remove sessionId) = None ->
  docs (Store.datastore (snd (Store.destroy io sessionId this))) =
  remove_first sessionId (docs (Store.datastore this)).
Proof. intros Hio. unfold Store.destroy, remove. now rewrite Hio. Qed.

End Destroy.

Lemma remove_first_other (id : string) (l : list doc) (d : doc) :
  In d l -> _id d <> id -> In d (remove_first id l).
Proof.
  intros Hin Hne. induction l as [|x l IH]; simpl in *; [tauto|].
  destruct (matches id x) eqn:E.
  - destruct Hin as [->|Hin]; [|assumption].
    apply matches_iff in E. contradiction.
  - simpl. tauto.
Qed.

(** C9.  On a collection with unique ids, [set] then [destroy] then [get] on
    one id ends with [(null, null)], whatever [set] did; [destroy] hands its
    callback the removal's error and nothing else, takes at most one document
    away, and leaves the documents of other ids in place. *)
Theorem set_destroy_get `{Host}
    (now now' : Z) (io io' io'' : faults) (sessionId : string) (session : value)
    (this : Store.instance) :
  unique_ids (docs (Store.datastore this)) ->
  io' (Remove sessionId) = None ->
  io'' (FindOne sessionId) = None ->
  let written := snd (Store.set now io sessionId session this) in
  let destroyed := Store.destroy io' sessionId written in
  let result := Store.get now' io'' sessionId (snd destroyed) in
  fst result = (None, VNull) /\
  fst destroyed = io' (Remove sessionId) /\
  (List.length (docs (Store.datastore written))
     <= S (List.length (docs (Store.datastore (snd destroyed)))))%nat /\
  (forall d, In d (docs (Store.datastore written)) -> _id d <> sessionId ->
     In d (docs (Store.datastore (snd destroyed)))) /\
  (forall d, In d (docs (Store.datastore (snd destroyed))) ->
     In d (docs (Store.datastore written)) /\ _id d <> sessionId).
Proof.
  intros Hu Hrm Hfo written destroyed result.
  assert (unique_ids (docs (Store.datastore written))) as Hw
    by now apply set_unique.
  assert (docs (Store.datastore (snd destroyed)) =
          remove_first sessionId (docs (Store.datastore written))) as Hd
    by now apply destroy_docs.
  assert (List.find (matches sessionId) (docs (Store.datastore (snd destroyed)))
          = None) as Hgone
    by (rewrite Hd; now apply remove_first_gone).
  split; [|split; [|split; [|split]]].
  - now apply get_missing.
  - apply destroy_result.
  - rewrite Hd. apply remove_first_length.
  - intros d Hin Hne. rewrite Hd. now apply remove_first_other.
  - intros d Hin. split.
    + rewrite Hd in Hin. now apply remove_first_incl in Hin.
    + intros Heq. apply find_none_iff in Hgone. apply Hgone.
      rewrite <- Heq. now apply in_map.
Qed.

Lemma set_destroy_get_witness :
  fst (Store.get 20 no_faults "a"
         (snd (Store.destroy no_faults "a"
                 (snd (@Store.set Sample.host 10 no_faults "a"
                         (Sample.express_session (VDate (Some 100)))
                         Sample.store)))))
  = (None, VNull).
Proof.
  exact (proj1 (@set_destroy_get Sample.host 10 20 no_faults no_faults no_faults
    "a" (Sample.express_session (VDate (Some 100))) Sample.store
    (NoDup_nil _) eq_refl eq_refl)).
Defined.

Section StoredRecord.

Context `{Host}.

(** The record [set] writes for a session whose cookie expires at [t]. *)
Lemma set_stored_expiring
    (now : Z) (io : faults) (sessionId : string) (session : value)
    (this : Store.instance) (t : option Z) :
  ToBoolean (Store.cookie_expires session) = true ->
  new_Date (Get (Get session "cookie") "expires") = t ->
  (forall m, io (Update sessionId m true) = None) ->
  let result := Store.set now io sessionId session this in
  exists sess d,
    Store.serialized session = Normal sess /\
    fst result = Normal None /\
    List.find (matches sessionId) (docs (Store.datastore (snd result))) = Some d /\
    NeDB.session d = sess /\
    expiresAt d = Some t.
Proof.
  intros Ht Hd Hio result.
  destruct (cookie_expires_truthy session Ht) as (Hs & Hc & _).
  destruct (serialized_returns session Hs Hc) as [sess Hsess].
  destruct (set_stored now io sessionId session this sess Hsess Hio)
    as (Hr & d & Hf & _ & Hp & He).
  exists sess, d. repeat split; try assumption.
  rewrite He. unfold Store.expirationDate. now rewrite Ht, Hd.
Qed.

Lemma is_live_expiring (now : Z) (d : doc) (t : Z) :
  expiresAt d = Some (Some t) -> Store.is_live now d = (now <? t).
Proof.
  intros He. unfold Store.is_live, Store.no_expiresAt, Store.before_expiresAt.
  rewrite He. now rewrite andb_false_r.
Qed.

End StoredRecord.

(** A cookie with a [toJSON] is stored through it: read back before it
    expires, the payload is the serialised session, which is not the session
    that was passed to [set]. *)
Lemma get_returns_serialized_cookie :
  let session := Sample.express_session (VDate (Some 100)) in
  let written :=
    snd (@Store.set Sample.host 10 no_faults "a" session Sample.store) in
  fst (Store.get 50 no_faults "a" written)
    = (None, Sample.plain_session (VDate (Some 100))) /\
  Sample.plain_session (VDate (Some 100)) <> session.
Proof.
  split; [reflexivity | discriminate].
Qed.

(** C3, amended.  For a session object with distinct own keys, none of them
    [__proto__], whose cookie carries an [expires] that coerces to the
    timestamp [t], on a collection with unique ids: [set] reports no error; a
    [get] of the id strictly before [t] returns the stored payload unchanged,
    which is a plain object holding the session's own properties with the
    cookie replaced by what its [toJSON] returns when it has one, and is the
    session argument itself when that is a plain object whose cookie has no
    [toJSON]; a [get] at or after [t] returns [(null, null)] and removes the
    record, so that a following [all] lists only the live ones of the other
    records. *)
Theorem set_then_get `{Host}
    (now now' : Z) (sessionId : string) (own proto : list (string * value))
    (this : Store.instance) (t : Z) :
  let session := VObj own proto in
  let expires := Get (Get session "cookie") "expires" in
  unique_ids (docs (Store.datastore this)) ->
  NoDup (map fst own) ->
  ~ In "__proto__"%string (map fst own) ->
  ToBoolean (Get session "cookie") = true ->
  ToBoolean expires = true ->
  new_Date expires = Some t ->
  let payload := VObj (Run.stored_props own) [] in
  let written := snd (Store.set now no_faults sessionId session this) in
  let result := Store.get now' no_faults sessionId written in
  let after := docs (Store.datastore (snd result)) in
  fst (Store.set now no_faults sessionId session this) = Normal None /\
  ((forall c, lookup "cookie" own = Some c ->
              is_function (Get c "toJSON") = false) ->
   proto = [] -> payload = session) /\
  (now' < t ->
     fst result = (None, payload) /\
     after = docs (Store.datastore written)) /\
  (t <= now' ->
     fst result = (None, VNull) /\
     after = remove_first sessionId (docs (Store.datastore written)) /\
     List.find (matches sessionId) after = None /\
     forall now'',
       fst (Store.all now'' no_faults (snd result)) =
       (None, Some (map NeDB.session (filter (Store.is_live now'') after)))).
Proof.
  intros session expires Hu Hnd Hnp Hc He Ht payload written result after.
  assert (Store.serialized session = Normal payload) as Hpayload.
  { unfold session. rewrite serialized_stored.
    - destruct (no_proto_key own Hnp) as [-> ->]. reflexivity.
    - assumption.
    - intros c Hin. pose proof (lookup_in _ _ _ Hnd Hin) as Hl.
      unfold session in Hc. simpl in Hc. rewrite Hl in Hc.
      destruct c; simpl in Hc; split; congruence. }
  assert (ToBoolean (Store.cookie_expires session) = true) as Hce.
  { rewrite cookie_expires_carries. unfold Spec.carries_expiration.
    fold expires. now rewrite Hc, He. }
  destruct (set_stored_expiring now no_faults sessionId session this (Some t) Hce)
    as (sess & d & Hsess & Hset & Hf & Hp & Hexp);
    [exact Ht | reflexivity |].
  rewrite Hpayload in Hsess. injection Hsess as <-.
  fold written in Hf.
  split; [exact Hset|]. split; [|split].
  - intros Hplain ->. unfold payload, session.
    now rewrite (stored_props_plain own Hnd Hplain).
  - intros Hlt.
    destruct (get_live now' no_faults sessionId written d eq_refl Hf) as [Hr Hd].
    { rewrite (is_live_expiring now' d t Hexp). now apply Z.ltb_lt. }
    rewrite <- Hp. auto.
  - intros Hge.
    destruct (get_stale now' no_faults sessionId written d eq_refl Hf)
      as (Hr & _ & Hd).
    { rewrite (is_live_expiring now' d t Hexp). now apply Z.ltb_ge. }
    simpl in Hr, Hd. fold result in Hr, Hd. fold after in Hd.
    split; [exact Hr|]. split; [exact Hd|]. split.
    + rewrite Hd. apply remove_first_gone. now apply set_unique.
    + intros now''. now apply all_callback.
Qed.

Lemma set_then_get_witness :
  fst (Store.get 50 no_faults "a"
         (snd (@Store.set Sample.host 10 no_faults "a"
                 (Sample.express_session (VDate (Some 100))) Sample.store)))
  = (None,
     VObj [("cookie"%string, Sample.plain_cookie (VDate (Some 100)));
           ("user"%string, VStr "ann")] []) /\
  fst (Store.get 100 no_faults "a"
         (snd (@Store.set Sample.host 10 no_faults "a"
                 (Sample.express_session (VDate (Some 100))) Sample.store)))
  = (None, VNull).
Proof.
  assert (NoDup (map fst
            [("cookie"%string, Sample.session_cookie (VDate (Some 100)));
             ("user"%string, VStr "ann")])) as Hnd.
  { repeat constructor; simpl; intuition discriminate. }
  assert (~ In "__proto__"%string (map fst
            [("cookie"%string, Sample.session_cookie (VDate (Some 100)));
             ("user"%string, VStr "ann")])) as Hnp.
  { simpl. intuition discriminate. }
  split.
  - exact (proj1 (proj1 (proj2 (proj2 (@set_then_get Sample.host 10 50 "a"
      [("cookie"%string, Sample.session_cookie (VDate (Some 100)));
       ("user"%string, VStr "ann")] [] Sample.store 100
      (NoDup_nil _) Hnd Hnp eq_refl eq_refl eq_refl))) eq_refl)).
  - refine (proj1 (proj2 (proj2 (proj2 (@set_then_get Sample.host 10 100 "a"
      [("cookie"%string, Sample.session_cookie (VDate (Some 100)));
       ("user"%string, VStr "ann")] [] Sample.store 100
      (NoDup_nil _) Hnd Hnp eq_refl eq_refl eq_refl))) _)).
    discriminate.
Defined.

Section Expired.

Context `{Host}.

(** An expiry that is not in the future can only come from the cookie. *)
Lemma expired_from_cookie
    (now : Z) (this : Store.instance) (session : value) (t de : Z) :
  Store._defaultExpiry this = Fin de -> 0 < de ->
  Store.expirationDate now this session = Some t -> t <= now ->
  ToBoolean (Store.cookie_expires session) = true /\
  new_Date (Get (Get session "cookie") "expires") = Some t.
Proof.
  intros Hde Hpos He Hle. unfold Store.expirationDate in He.
  destruct (ToBoolean (Store.cookie_expires session)); [auto|].
  exfalso. rewrite Hde in He. simpl in He.
  destruct (Z.abs (now + de) <=? 8640000000000000); [|discriminate].
  injection He as <-. lia.
Qed.

End Expired.

(** C10.  [set] does not look at whether the expiry it computes has passed:
    when that expiry [t] is at or before the time of the call, an accepted
    [set] still reports no error and the collection holds a record with
    [expiresAt = t] for the id.  From then on, wherever that record is still
    the record of the id (or the id has no record), a [get] of the id yields a
    null payload, and destroys the record once the lookup and the removal are
    accepted; and [all] lists the payloads of the live records, of which the
    record is never one. *)
Theorem set_stores_expired `{Host}
    (now : Z) (io : faults) (sessionId : string) (session : value)
    (this : Store.instance) (t de : Z) :
  Store._defaultExpiry this = Fin de -> 0 < de ->
  Store.expirationDate now this session = Some t -> t <= now ->
  (forall m, io (Update sessionId m true) = None) ->
  let result := Store.set now io sessionId session this in
  fst result = Normal None /\
  exists d,
    List.find (matches sessionId) (docs (Store.datastore (snd result))) = Some d /\
    expiresAt d = Some (Some t) /\
    forall (now' : Z) (io' : faults) (later : Store.instance),
      now <= now' ->
      let found := List.find (matches sessionId) (docs (Store.datastore later)) in
      (found = Some d \/ found = None ->
         snd (fst (Store.get now' io' sessionId later)) = VNull) /\
      (found = Some d ->
         io' (FindOne sessionId) = None -> io' (Remove sessionId) = None ->
         docs (Store.datastore (snd (Store.get now' io' sessionId later))) =
         remove_first sessionId (docs (Store.datastore later))) /\
      (io' Find = None ->
         fst (Store.all now' io' later) =
           (None, Some (map NeDB.session
                          (filter (Store.is_live now') (docs (Store.datastore later))))) /\
         ~ In d (filter (Store.is_live now') (docs (Store.datastore later)))).
Proof.
  intros Hde Hpos He Hle Hio result.
  destruct (expired_from_cookie now this session t de Hde Hpos He Hle) as [Ht Hd].
  destruct (set_stored_expiring now io sessionId session this (Some t) Ht Hd Hio)
    as (sess & d & _ & Hr & Hf & _ & Hexp).
  split; [exact Hr|]. exists d. split; [exact Hf|]. split; [exact Hexp|].
  intros now' io' later Hnow found.
  assert (Store.is_live now' d = false) as Hstale.
  { rewrite (is_live_expiring now' d t Hexp). apply Z.ltb_ge. lia. }
  split; [|split].
  - intros Hfound.
    destruct (io' (FindOne sessionId)) as [e|] eqn:Hfo.
    + now rewrite (proj1 (get_lookup_error now' io' sessionId later e Hfo)).
    + destruct Hfound as [Hsome|Hnone].
      * now rewrite (proj1 (get_stale now' io' sessionId later d Hfo Hsome Hstale)).
      * now rewrite (proj1 (get_missing now' io' sessionId later Hfo Hnone)).
  - intros Hsome Hfo Hrm.
    destruct (get_stale now' io' sessionId later d Hfo Hsome Hstale)
      as (_ & _ & Hdocs).
    now rewrite Hrm in Hdocs.
  - intros Hfind. split; [now apply all_callback|].
    intros Hin. apply filter_In in Hin. destruct Hin as [_ Hlive]. congruence.
Qed.

Lemma set_stores_expired_witness :
  fst (@Store.set Sample.host 500 no_faults "a"
         (Sample.express_session (VDate (Some 100))) Sample.store)
  = Normal None.
Proof.
  refine (proj1 (@set_stores_expired Sample.host 500 no_faults "a"
    (Sample.express_session (VDate (Some 100))) Sample.store 100 1209600000
    eq_refl eq_refl eq_refl _ (fun _ => eq_refl))).
  discriminate.
Defined.

(* ================================================================== *)
(** * The store's invariant *)
(* ================================================================== *)

(** The assumptions made above hold of every store built by the constructor
    on a sound file, and every operation maintains them. *)

Section Invariant.

Context `{Host}.

Lemma remove_first_payload (id : string) (l : list doc) :
  Forall Spec.has_payload l -> Forall Spec.has_payload (remove_first id l).
Proof.
  rewrite !Forall_forall. intros Hl d Hin. apply Hl.
  now apply remove_first_incl in Hin.
Qed.

Lemma update_first_payload (id : string) (f : doc -> doc) (l : list doc) :
  (forall d, Spec.has_payload d -> Spec.has_payload (f d)) ->
  Forall Spec.has_payload l -> Forall Spec.has_payload (update_first id f l).
Proof.
  intros Hf Hl. induction Hl as [|x xs Hx Hxs IH]; simpl; [constructor|].
  destruct (matches id x); constructor; auto.
Qed.

Lemma update_payload (now : Z) (io : faults) (id : string) (m : modifier)
    (upsert : bool) (ds : Datastore) :
  (forall v, set_session m = Some v -> ToBoolean v = true) ->
  (upsert = true -> set_session m <> None) ->
  Forall Spec.has_payload (docs ds) ->
  Forall Spec.has_payload (docs (snd (update now io id m upsert ds))).
Proof.
  intros Hm Hup Hl. rewrite update_docs.
  destruct (io (Update id m upsert)); [assumption|].
  destruct (List.find (matches id) (docs ds)).
  - apply update_first_payload; [|assumption].
    intros x Hx. unfold Spec.has_payload, modify. simpl.
    destruct (set_session m) as [v|]; simpl; auto.
  - destruct upsert; [|assumption].
    apply Forall_app. split; [assumption|]. constructor; [|constructor].
    unfold Spec.has_payload, inserted. simpl.
    destruct (set_session m) as [v|]; simpl; [auto|].
    now destruct Hup.
Qed.

Variables (now : Z) (io : faults) (this : Store.instance).

Hypothesis sound : Spec.well_formed this.

Lemma NeDBStore_well_formed
    (opts : Store.options) (persisted : list doc) (loadErr : option error) :
  unique_ids persisted -> Forall Spec.has_payload persisted ->
  Spec.well_formed (Store.NeDBStore opts persisted loadErr).
Proof.
  intros Hu Hp. split; [|split].
  - unfold Store.NeDBStore. simpl.
    destruct loadErr; [constructor|].
    destruct (ToBoolean _); [assumption | constructor].
  - unfold Store.NeDBStore. simpl.
    destruct loadErr; [constructor|].
    destruct (ToBoolean _); [assumption | constructor].
  - apply defaultExpiry_positive.
Qed.

Lemma set_well_formed (sessionId : string) (session : value) :
  Spec.well_formed (snd (Store.set now io sessionId session this)).
Proof.
  destruct sound as (Hu & Hp & Hd). split; [|split].
  - now apply set_unique.
  - unfold Store.set.
    destruct (Store.serialized session) as [sess|e] eqn:Hs; [|assumption].
    destruct (serialized_is_object _ _ Hs) as (own & proto & ->).
    pose proof (update_payload now io sessionId
      {| set_session := Some (VObj own proto);
         set_expiresAt := Some (Store.expirationDate now this session);
         set_updatedAt := None |} true (Store.datastore this)) as Hupd.
    destruct (update _ _ _ _ _ _) as [[[err n] nd] ds]. simpl in *.
    apply Hupd; [now intros v [= <-] | discriminate | assumption].
  - now rewrite set_defaultExpiry.
Qed.

Lemma touch_well_formed (sessionId : string) (session : value) :
  Spec.well_formed (snd (Store.touch now io sessionId session this)).
Proof.
  destruct sound as (Hu & Hp & Hd). unfold Store.touch.
  pose proof (update_unique now io sessionId (Store.touchSetOp now session)
                false (Store.datastore this) Hu) as Hu'.
  pose proof (update_payload now io sessionId (Store.touchSetOp now session)
                false (Store.datastore this)) as Hp'.
  destruct (update _ _ _ _ _ _) as [[[err n] nd] ds]. simpl in *.
  split; [assumption|]. split; [|assumption].
  apply Hp'; [discriminate | discriminate | assumption].
Qed.

Lemma destroy_well_formed (sessionId : string) :
  Spec.well_formed (snd (Store.destroy io sessionId this)).
Proof.
  destruct sound as (Hu & Hp & Hd). unfold Store.destroy, remove.
  destruct (io (Remove sessionId)); simpl.
  - now split.
  - split; [now apply remove_first_unique|].
    split; [now apply remove_first_payload | assumption].
Qed.

Lemma clear_well_formed : Spec.well_formed (snd (Store.clear io this)).
Proof.
  destruct sound as (Hu & Hp & Hd). unfold Store.clear, remove_all.
  destruct (io RemoveAll); simpl; [now split|].
  split; [constructor|]. split; [constructor | assumption].
Qed.

End Invariant.

Section InvariantReads.

Variables (now : Z) (io : faults).

Lemma get_well_formed (sessionId : string) (this : Store.instance) :
  Spec.well_formed this ->
  Spec.well_formed (snd (Store.get now io sessionId this)).
Proof.
  intros Hwf. unfold Store.get, findOne.
  destruct (io (FindOne sessionId)); simpl; [exact Hwf|].
  destruct (List.find _ _) as [d|]; [|exact Hwf].
  destruct (Store.is_live now d); [exact Hwf|].
  pose proof (destroy_well_formed io
    (Store.with_datastore (received (FindOne sessionId) (Store.datastore this)) this)
    Hwf sessionId) as Hd.
  now destruct (Store.destroy _ _ _).
Qed.

Lemma filter_live_well_formed (l : list doc) (this : Store.instance) :
  Spec.well_formed this ->
  Spec.well_formed (snd (Store.filter_live now io l this)).
Proof.
  revert this. induction l as [|d l IH]; intros this Hwf; simpl; [exact Hwf|].
  destruct (Store.is_live now d).
  - specialize (IH this Hwf). now destruct (Store.filter_live now io l this).
  - pose proof (destroy_well_formed io this Hwf (_id d)) as Hd.
    destruct (Store.destroy io (_id d) this) as [[e|] this']; apply IH; exact Hd.
Qed.

Lemma all_well_formed (this : Store.instance) :
  Spec.well_formed this -> Spec.well_formed (snd (Store.all now io this)).
Proof.
  intros Hwf. unfold Store.all, find.
  destruct (io Find); simpl; [exact Hwf|].
  pose proof (filter_live_well_formed (docs (Store.datastore this))
    (Store.with_datastore (received Find (Store.datastore this)) this) Hwf) as Hf.
  now destruct (Store.filter_live _ _ _ _).
Qed.

Lemma length_well_formed (this : Store.instance) :
  Spec.well_formed this -> Spec.well_formed (snd (Store.length now io this)).
Proof.
  intros Hwf. unfold Store.length.
  pose proof (all_well_formed this Hwf) as Ha.
  now destruct (Store.all now io this) as [[err sessions] this'].
Qed.

End InvariantReads.

(* ================================================================== *)
(** * Further properties: errors and emptying *)
(* ================================================================== *)

(** What the callback of [get] receives, in terms of the collection. *)
Lemma get_callback (now : Z) (io : faults) (sessionId : string)
    (this : Store.instance) :
  fst (Store.get now io sessionId this) =
  match io (FindOne sessionId) with
  | Some e => (Some e, VNull)
  | None =>
      match List.find (matches sessionId) (docs (Store.datastore this)) with
      | Some d =>
          if Store.is_live now d then (None, session d)
          else (io (Remove sessionId), VNull)
      | None => (None, VNull)
      end
  end.
Proof.
  destruct (io (FindOne sessionId)) as [e|] eqn:Hio.
  - now apply get_lookup_error.
  - destruct (List.find _ _) as [d|] eqn:Hf.
    + destruct (Store.is_live now d) eqn:Hl.
      * now apply get_live.
      * now apply get_stale with (d := d).
    + now apply get_missing.
Qed.

(** X1.  An accepted [clear] reports no error and leaves no document: a
    following [length] gives [(null, 0)], a following [all] the empty list and
    a following [get] of any id [(null, null)], none of them issuing a
    removal. *)
Theorem clear_empties_store
    (now : Z) (io io' : faults) (sessionId : string) (this : Store.instance) :
  io RemoveAll = None ->
  let cleared := Store.clear io this in
  fst cleared = None /\
  docs (Store.datastore (snd cleared)) = [] /\
  (io' Find = None ->
     fst (Store.length now io' (snd cleared)) = (None, 0) /\
     fst (Store.all now io' (snd cleared)) = (None, Some []) /\
     log (Store.datastore (snd (Store.all now io' (snd cleared)))) =
       log (Store.datastore this) ++ [RemoveAll; Find]) /\
  (io' (FindOne sessionId) = None ->
     fst (Store.get now io' sessionId (snd cleared)) = (None, VNull)).
Proof.
  intros Hio cleared.
  assert (fst cleared = None /\ docs (Store.datastore (snd cleared)) = [] /\
          log (Store.datastore (snd cleared)) =
            log (Store.datastore this) ++ [RemoveAll]) as (H1 & H2 & H3).
  { unfold cleared, Store.clear, remove_all. rewrite Hio. simpl. auto. }
  split; [exact H1|]. split; [exact H2|]. split.
  - intros Hf.
    pose proof (all_callback now io' (snd cleared) Hf) as Ha.
    pose proof (all_log now io' (snd cleared) Hf) as Hl.
    rewrite H2 in Ha, Hl. simpl in Ha, Hl. split; [|split].
    + unfold Store.length.
      destruct (Store.all now io' (snd cleared)) as [[err sessions] this'].
      simpl in Ha. injection Ha as -> ->. reflexivity.
    + exact Ha.
    + rewrite Hl, H3. now rewrite <- app_assoc.
  - intros Hf. rewrite get_callback, Hf, H2. reflexivity.
Qed.

Lemma clear_empties_store_witness :
  fst (Store.length 5 no_faults
         (snd (Store.clear no_faults
                 (Sample.holding [Sample.record "a" None;
                                  Sample.record "b" (Some (Some 9))]))))
  = (None, 0).
Proof.
  destruct (clear_empties_store 5 no_faults no_faults "a"
    (Sample.holding [Sample.record "a" None; Sample.record "b" (Some (Some 9))])
    eq_refl) as (_ & _ & H & _).
  exact (proj1 (H eq_refl)).
Defined.

(** X2.  When the query of [all] fails, [all] calls back with the error and
    no list, [length] with the same error and the count 0, and nothing else
    happens: no removal is issued, no event emitted, no document touched. *)
Theorem query_error_reported
    (now : Z) (io : faults) (this : Store.instance) (e : error) :
  io Find = Some e ->
  fst (Store.all now io this) = (Some e, None) /\
  fst (Store.length now io this) = (Some e, 0) /\
  snd (Store.length now io this) = snd (Store.all now io this) /\
  docs (Store.datastore (snd (Store.all now io this))) = docs (Store.datastore this) /\
  log (Store.datastore (snd (Store.all now io this))) =
    log (Store.datastore this) ++ [Find] /\
  Store.emitted (snd (Store.all now io this)) = Store.emitted this.
Proof.
  intros Hio. unfold Store.length, Store.all, find. rewrite Hio. simpl.
  repeat split.
Qed.

Lemma query_error_reported_witness :
  fst (Store.length 5
         (fun c => match c with Find => Some (Error "EIO") | _ => None end)
         (Sample.holding [Sample.record "a" None]))
  = (Some (Error "EIO"), 0).
Proof.
  exact (proj1 (proj2 (query_error_reported 5
    (fun c => match c with Find => Some (Error "EIO") | _ => None end)
    (Sample.holding [Sample.record "a" None]) (Error "EIO") eq_refl))).
Defined.

(** X3.  When the lookup of [get] fails the callback gets the error with a
    null payload and the record, stale or not, is left alone: the lookup is
    the only command issued. *)
Theorem lookup_error_destroys_nothing
    (now : Z) (io : faults) (sessionId : string) (this : Store.instance)
    (e : error) :
  io (FindOne sessionId) = Some e ->
  let result := Store.get now io sessionId this in
  fst result = (Some e, VNull) /\
  docs (Store.datastore (snd result)) = docs (Store.datastore this) /\
  log (Store.datastore (snd result)) =
    log (Store.datastore this) ++ [FindOne sessionId] /\
  Store.emitted (snd result) = Store.emitted this.
Proof.
  intros Hio result. unfold result, Store.get, findOne. rewrite Hio. simpl.
  repeat split.
Qed.

Lemma lookup_error_destroys_nothing_witness :
  docs (Store.datastore (snd (Store.get 500
         (fun c => match c with FindOne _ => Some (Error "EIO") | _ => None end)
         "a" (Sample.holding [Sample.record "a" (Some (Some 9))]))))
  = [Sample.record "a" (Some (Some 9))].
Proof.
  exact (proj1 (proj2 (lookup_error_destroys_nothing 500
    (fun c => match c with FindOne _ => Some (Error "EIO") | _ => None end)
    "a" (Sample.holding [Sample.record "a" (Some (Some 9))]) (Error "EIO")
    eq_refl))).
Defined.

Lemma is_live_earlier (now now' : Z) (d : doc) :
  now <= now' -> Store.is_live now' d = true -> Store.is_live now d = true.
Proof.
  unfold Store.is_live, Store.no_expiresAt, Store.before_expiresAt.
  intros Hle. destruct (expiresAt d) as [[t|]|]; simpl; auto.
  rewrite !andb_false_r. simpl. rewrite !Z.ltb_lt. lia.
Qed.

(** X4.  Time only makes records stale: a record that passes the test of
    [get] and [all] at some time passes it at every earlier time, so a record
    found stale is found stale at every later time for as long as it is not
    written again, by [get] and by [all] alike. *)
Theorem is_live_antitone (now now' : Z) (io : faults) (d : doc)
    (this : Store.instance) :
  now <= now' ->
  (Store.is_live now' d = true -> Store.is_live now d = true) /\
  (Store.is_live now d = false ->
   List.find (matches (_id d)) (docs (Store.datastore this)) = Some d ->
   snd (fst (Store.get now' io (_id d) this)) = VNull).
Proof.
  intros Hle. split; [now apply is_live_earlier|].
  intros Hs Hf. rewrite get_callback.
  destruct (io (FindOne (_id d))); [reflexivity|]. rewrite Hf.
  destruct (Store.is_live now' d) eqn:E; [|reflexivity].
  apply (is_live_earlier now now' d Hle) in E. congruence.
Qed.

Lemma is_live_antitone_witness :
  Store.is_live 5 (Sample.record "a" (Some (Some 9))) = true.
Proof.
  refine (proj1 (is_live_antitone 5 8 no_faults
    (Sample.record "a" (Some (Some 9))) Sample.store _) eq_refl).
  discriminate.
Defined.

(* ================================================================== *)
(** * Further properties: [set] *)
(* ================================================================== *)

Section SetEdges.

Context `{Host}.

Lemma copy_keys_thrown (session : value) (keys : list string) (e : error) :
  fold_left (Store.copy_key session) keys (Throw e) = Throw e.
Proof. induction keys as [|k keys IH]; simpl; auto. Qed.

Lemma copy_keys_null_cookie (session : value) (keys : list string)
    (sess : list (string * value) * list (string * value)) :
  In "cookie"%string keys ->
  Get session "cookie" = VNull \/ Get session "cookie" = VUndefined ->
  exists msg,
    fold_left (Store.copy_key session) keys (Normal sess) = Throw (TypeError msg).
Proof.
  intros Hin Hc. revert sess.
  induction keys as [|k keys IH]; intros sess; [destruct Hin|].
  change (exists msg,
    fold_left (Store.copy_key session) keys
      (Store.copy_key session (Normal sess) k) = Throw (TypeError msg)).
  destruct (String.eqb_spec k "cookie") as [->|Hne].
  - assert (exists msg, Store.copy_key session (Normal sess) "cookie"
                         = Throw (TypeError msg)) as [msg Hm].
    { unfold Store.copy_key. simpl. destruct Hc as [-> | ->]; simpl; eauto. }
    rewrite Hm, copy_keys_thrown. eauto.
  - destruct Hin as [->|Hin]; [congruence|].
    assert (exists sess', Store.copy_key session (Normal sess) k = Normal sess')
      as [sess' ->].
    { unfold Store.copy_key. apply String.eqb_neq in Hne. rewrite Hne. eauto. }
    now apply IH.
Qed.

End SetEdges.

(** X5.  [set] throws a TypeError, before any command reaches the datastore
    and leaving the store as it was, when the session is [null] or
    [undefined] and when the session is an object with an own [cookie]
    property that is [null] or [undefined]. *)
Theorem set_throws_without_cookie `{Host}
    (now : Z) (io : faults) (sessionId : string) (session : value)
    (this : Store.instance) :
  session = VNull \/ session = VUndefined \/
  (exists own proto c,
     session = VObj own proto /\ lookup "cookie" own = Some c /\
     (c = VNull \/ c = VUndefined)) ->
  exists msg,
    Store.set now io sessionId session this = (Throw (TypeError msg), this).
Proof.
  intros [-> | [-> | (own & proto & c & -> & Hl & Hc)]].
  - eexists. reflexivity.
  - eexists. reflexivity.
  - assert (In "cookie"%string (map fst own)) as Hin.
    { destruct (in_dec string_dec "cookie"%string (map fst own)) as [|Hn];
        [assumption|]. apply lookup_none_iff in Hn. congruence. }
    destruct (copy_keys_null_cookie (VObj own proto) (map fst own) ([], []) Hin)
      as [msg Hm].
    { simpl. rewrite Hl. destruct Hc as [-> | ->]; auto. }
    exists msg. apply set_throws. unfold Store.serialized. simpl Object_keys.
    cbv beta iota. now rewrite Hm.
Qed.

Lemma set_throws_without_cookie_witness :
  exists msg,
    @Store.set Sample.host 5 no_faults "a"
      (VObj [("user"%string, VStr "ann"); ("cookie"%string, VNull)] [])
      Sample.store
    = (Throw (TypeError msg), Sample.store).
Proof.
  apply (@set_throws_without_cookie Sample.host).
  right. right.
  exists [("user"%string, VStr "ann"); ("cookie"%string, VNull)], [], VNull.
  repeat split. now left.
Defined.

(** X6.  What [set] stores for an object with distinct own keys whose cookie is
    neither [null] nor [undefined]: an object whose own properties are the
    session's own properties other than [__proto__], in the same order and with
    the same values, except that the cookie is replaced by what its [toJSON]
    returns when it has one.  What the session finds on its own prototype is
    not stored; an own [__proto__] is not stored as a property either, its
    value, when an object or [null], becoming the prototype of what is stored.
    Without an own [__proto__] what is stored is a plain object with all the
    own keys. *)
Theorem serialized_object `{Host}
    (own proto : list (string * value)) :
  NoDup (map fst own) ->
  (forall c, In ("cookie"%string, c) own -> c <> VNull /\ c <> VUndefined) ->
  Store.serialized (VObj own proto) =
    Normal (VObj (Run.stored_props (Run.own_properties own))
                 (Run.stored_prototype own [])) /\
  map fst (Run.stored_props (Run.own_properties own)) =
    filter (fun k => negb (k =? "__proto__")%string) (map fst own) /\
  (~ In "__proto__"%string (map fst own) ->
   Store.serialized (VObj own proto) = Normal (VObj (Run.stored_props own) []) /\
   map fst (Run.stored_props own) = map fst own).
Proof.
  intros Hnd Hc. split; [now apply serialized_stored|]. split.
  - unfold Run.stored_props, Run.own_properties. rewrite map_map. simpl.
    clear. induction own as [|[k v] own IH]; simpl; [reflexivity|].
    destruct (k =? "__proto__")%string; simpl; now rewrite IH.
  - intros Hnp. rewrite serialized_stored by assumption.
    destruct (no_proto_key own Hnp) as [-> ->]. split; [reflexivity|].
    unfold Run.stored_props. rewrite map_map. reflexivity.
Qed.

Lemma serialized_object_witness :
  @Store.serialized Sample.host
    (VObj [("cookie"%string, Sample.session_cookie (VDate (Some 100)));
           ("__proto__"%string, VObj [("admin"%string, VBool true)] []);
           ("user"%string, VStr "ann")] [])
  = Normal (VObj [("cookie"%string, Sample.plain_cookie (VDate (Some 100)));
                  ("user"%string, VStr "ann")]
                 [("admin"%string, VBool true)]).
Proof.
  refine (proj1 (@serialized_object Sample.host
    [("cookie"%string, Sample.session_cookie (VDate (Some 100)));
     ("__proto__"%string, VObj [("admin"%string, VBool true)] []);
     ("user"%string, VStr "ann")]
    [] _ _)).
  - repeat constructor; simpl; intuition discriminate.
  - intros c [Hc|[Hc|[Hc|[]]]]; inversion Hc; split; discriminate.
Defined.

(** X7.  When [set] does not throw it hands the datastore exactly one
    command, an upsert for the id of the serialised session and the computed
    expiry; an error with which the datastore rejects it reaches the callback
    as it is, and the documents are left as they were. *)
Theorem set_reports_datastore_verdict `{Host}
    (now : Z) (io : faults) (sessionId : string) (session sess : value)
    (this : Store.instance) (e : error) :
  Store.serialized session = Normal sess ->
  let command :=
    Update sessionId
      {| set_session := Some sess;
         set_expiresAt := Some (Store.expirationDate now this session);
         set_updatedAt := None |} true in
  let result := Store.set now io sessionId session this in
  log (Store.datastore (snd result)) = log (Store.datastore this) ++ [command] /\
  (io command = Some e ->
   fst result = Normal (Some e) /\
   docs (Store.datastore (snd result)) = docs (Store.datastore this)).
Proof.
  intros Hs command result. unfold result, Store.set. rewrite Hs.
  unfold update. fold command. simpl.
  destruct (io command) as [e'|]; simpl.
  - split; [reflexivity|]. intros [= ->]. split; reflexivity.
  - destruct (existsb (matches sessionId) (docs (Store.datastore this))); simpl;
      (split; [reflexivity | discriminate]).
Qed.

Lemma set_reports_datastore_verdict_witness :
  fst (@Store.set Sample.host 5 (fun _ => Some (Error "EIO")) "a"
         (Sample.plain_session VNull) Sample.store)
  = Normal (Some (Error "EIO")).
Proof.
  exact (proj1 (proj2 (@set_reports_datastore_verdict Sample.host 5
    (fun _ => Some (Error "EIO")) "a" (Sample.plain_session VNull)
    (Sample.plain_session VNull) Sample.store (Error "EIO") eq_refl) eq_refl)).
Defined.

(** X8.  An accepted [set] writes one record and touches no other: for a new
    id one record is added to the existing ones, created at the time of the
    call; for an existing id the record is replaced where it stands, its
    payload and expiry overwritten and its [createdAt] kept. *)
Theorem set_inserts_or_replaces `{Host}
    (now : Z) (io : faults) (sessionId : string) (session sess : value)
    (this : Store.instance) :
  Store.serialized session = Normal sess ->
  (forall m, io (Update sessionId m true) = None) ->
  let before := docs (Store.datastore this) in
  let after :=
    docs (Store.datastore (snd (Store.set now io sessionId session this))) in
  let stored (created : Z) :=
    {| _id := sessionId; NeDB.session := sess;
       expiresAt := Some (Store.expirationDate now this session);
       createdAt := created; updatedAt := now |} in
  match List.find (matches sessionId) before with
  | None =>
      exists l1 l2, before = l1 ++ l2 /\ after = l1 ++ stored now :: l2
  | Some d =>
      exists l1 l2,
        before = l1 ++ d :: l2 /\ after = l1 ++ stored (createdAt d) :: l2
  end.
Proof.
  intros Hs Hio before after stored.
  set (m := {| set_session := Some sess;
               set_expiresAt := Some (Store.expirationDate now this session);
               set_updatedAt := None |}).
  assert (after = docs (snd (update now io sessionId m true (Store.datastore this))))
    as Hafter.
  { unfold after, Store.set. rewrite Hs. fold m.
    now destruct (update now io sessionId m true (Store.datastore this))
      as [[[err n] nd] ds]. }
  rewrite Hafter, update_docs, (Hio m). fold before.
  destruct (List.find (matches sessionId) before) as [d|] eqn:Hf.
  - destruct (find_split _ _ _ Hf) as (l1 & l2 & Hl & Hn).
    exists l1, l2. split; [assumption|]. rewrite Hl.
    apply find_some_id in Hf. destruct Hf as [Hid _].
    rewrite (update_first_split _ _ _ _ _ Hn Hid).
    unfold modify, stored. simpl. now rewrite Hid.
  - exists before, []. now rewrite app_nil_r.
Qed.

Lemma set_inserts_or_replaces_witness :
  exists l1 l2,
    [Sample.record "a" None; Sample.record "b" None] =
      l1 ++ Sample.record "b" None :: l2 /\
    docs (Store.datastore (snd (@Store.set Sample.host 5 no_faults "b"
            (Sample.plain_session VNull)
            (Sample.holding [Sample.record "a" None; Sample.record "b" None]))))
    = l1 ++ {| _id := "b"; NeDB.session := Sample.plain_session VNull;
               expiresAt := Some (Some 1209600005);
               createdAt := 0; updatedAt := 5 |} :: l2.
Proof.
  exact (@set_inserts_or_replaces Sample.host 5 no_faults "b"
    (Sample.plain_session VNull) (Sample.plain_session VNull)
    (Sample.holding [Sample.record "a" None; Sample.record "b" None])
    eq_refl (fun _ => eq_refl)).
Defined.

(** X9.  A session whose cookie carries no expiration lives for the default
    expiry: after an accepted [set] at time [now] on a store whose default
    expiry is [de] milliseconds, a [get] before [now + de] returns the stored
    payload and a [get] at or after [now + de] finds the record stale, returns
    [(null, null)] and removes it. *)
Theorem set_without_expiry_then_get `{Host}
    (now now' de : Z) (sessionId : string) (session sess : value)
    (this : Store.instance) :
  unique_ids (docs (Store.datastore this)) ->
  Store._defaultExpiry this = Fin de ->
  Z.abs (now + de) <= 8640000000000000 ->
  ToBoolean (Store.cookie_expires session) = false ->
  Store.serialized session = Normal sess ->
  let written := snd (Store.set now no_faults sessionId session this) in
  let result := Store.get now' no_faults sessionId written in
  (now' < now + de -> fst result = (None, sess)) /\
  (now + de <= now' ->
     fst result = (None, VNull) /\
     List.find (matches sessionId) (docs (Store.datastore (snd result))) = None).
Proof.
  intros Hu Hde Hrange Hc Hs written result.
  destruct (set_stored now no_faults sessionId session this sess Hs)
    as (_ & d & Hf & _ & Hp & He); [reflexivity|].
  fold written in Hf.
  assert (expiresAt d = Some (Some (now + de))) as Hexp.
  { rewrite He. unfold Store.expirationDate. rewrite Hc, Hde. simpl.
    apply Z.leb_le in Hrange. now rewrite Hrange. }
  split.
  - intros Hlt.
    destruct (get_live now' no_faults sessionId written d eq_refl Hf) as [Hr _].
    { rewrite (is_live_expiring now' d _ Hexp). now apply Z.ltb_lt. }
    now rewrite <- Hp.
  - intros Hge.
    destruct (get_stale now' no_faults sessionId written d eq_refl Hf)
      as (Hr & _ & Hd).
    { rewrite (is_live_expiring now' d _ Hexp). now apply Z.ltb_ge. }
    split; [exact Hr|]. simpl in Hd. fold result in Hd. rewrite Hd.
    apply remove_first_gone. now apply set_unique.
Qed.

Lemma set_without_expiry_then_get_witness :
  fst (Store.get 1209600004 no_faults "a"
         (snd (@Store.set Sample.host 5 no_faults "a"
                 (Sample.plain_session VNull) Sample.store)))
  = (None, Sample.plain_session VNull).
Proof.
  refine (proj1 (@set_without_expiry_then_get Sample.host 5 1209600004
    1209600000 "a" (Sample.plain_session VNull) (Sample.plain_session VNull)
    Sample.store (NoDup_nil _) eq_refl _ eq_refl eq_refl) eq_refl).
  discriminate.
Defined.

(* ================================================================== *)
(** * Further properties: [touch], [destroy] and other ids *)
(* ================================================================== *)

(** X10.  [touch] does not look at whether the record is live: once an
    accepted [touch] has brought the Date [t] as the cookie's [expires], a
    [get] before [t] returns the record's payload whatever its previous
    expiry was, and a [get] at or after [t] finds it stale. *)
Theorem touch_sets_expiry_unchecked `{Host}
    (now now' : Z) (io io' : faults) (sessionId : string) (session : value)
    (this : Store.instance) (d : doc) (t : Z) :
  List.find (matches sessionId) (docs (Store.datastore this)) = Some d ->
  Get (Get session "cookie") "expires" = VDate (Some t) ->
  io (Update sessionId (Store.touchSetOp now session) false) = None ->
  io' (FindOne sessionId) = None ->
  let touched := snd (Store.touch now io sessionId session this) in
  (now' < t ->
     fst (Store.get now' io' sessionId touched) = (None, NeDB.session d)) /\
  (t <= now' ->
     fst (Store.get now' io' sessionId touched) = (io' (Remove sessionId), VNull)).
Proof.
  intros Hf He Hio Hio' touched.
  pose proof (expires_date_truthy session (Some t) He) as Hce.
  assert (List.find (matches sessionId) (docs (Store.datastore touched))
          = Some (Spec.touched now session d)) as Hf'.
  { unfold touched, Store.touch.
    pose proof (update_docs now io sessionId (Store.touchSetOp now session)
                  false (Store.datastore this)) as Hd.
    destruct (update _ _ _ _ _ _) as [[[err n] nd] ds]. simpl in *.
    rewrite Hd, Hio, Hf, update_first_find by apply modify_id.
    rewrite Hf. simpl. now rewrite modify_touchSetOp. }
  assert (expiresAt (Spec.touched now session d) = Some (Some t)) as Hexp.
  { unfold Spec.touched. simpl.
    now rewrite <- cookie_expires_carries, Hce, He. }
  rewrite !get_callback, Hio', Hf', (is_live_expiring now' _ t Hexp).
  split; intros Hcmp.
  - apply Z.ltb_lt in Hcmp. now rewrite Hcmp.
  - apply Z.ltb_ge in Hcmp. now rewrite Hcmp.
Qed.

Lemma touch_sets_expiry_unchecked_witness :
  fst (Store.get 50 no_faults "a"
         (snd (@Store.touch Sample.host 20 no_faults "a"
                 (Sample.express_session (VDate (Some 100)))
                 (Sample.holding [Sample.record "a" (Some (Some 9))]))))
  = (None, Sample.plain_session VNull).
Proof.
  exact (proj1 (@touch_sets_expiry_unchecked Sample.host 20 50 no_faults no_faults
    "a" (Sample.express_session (VDate (Some 100)))
    (Sample.holding [Sample.record "a" (Some (Some 9))])
    (Sample.record "a" (Some (Some 9))) 100 eq_refl eq_refl eq_refl eq_refl)
    eq_refl).
Defined.

(** X11.  A [touch] whose session carries no cookie expiration changes nothing
    a reader can see: whether or not it is accepted, a following [get] of any
    id and a following [all] call back exactly as they would have without
    it. *)
Theorem touch_without_expiry_is_invisible `{Host}
    (now now' : Z) (io io' : faults) (sessionId other : string)
    (session : value) (this : Store.instance) :
  ToBoolean (Store.cookie_expires session) = false ->
  let touched := snd (Store.touch now io sessionId session this) in
  fst (Store.get now' io' other touched) = fst (Store.get now' io' other this) /\
  (io' Find = None ->
   fst (Store.all now' io' touched) = fst (Store.all now' io' this)).
Proof.
  intros Hc touched.
  set (f := modify now (Store.touchSetOp now session)).
  assert (forall x, Store.is_live now' (f x) = Store.is_live now' x
                    /\ NeDB.session (f x) = NeDB.session x /\ _id (f x) = _id x)
    as Hf.
  { intros x. unfold f. rewrite modify_touchSetOp.
    unfold Store.is_live, Store.no_expiresAt, Store.before_expiresAt,
      Spec.touched. simpl. now rewrite <- cookie_expires_carries, Hc. }
  assert (docs (Store.datastore touched) = docs (Store.datastore this) \/
          docs (Store.datastore touched) =
            update_first sessionId f (docs (Store.datastore this))) as Hd.
  { unfold touched, Store.touch.
    pose proof (update_docs now io sessionId (Store.touchSetOp now session)
                  false (Store.datastore this)) as Hd.
    destruct (update _ _ _ _ _ _) as [[[err n] nd] ds]. simpl in *. rewrite Hd.
    destruct (io _); [now left|].
    destruct (List.find _ _); [now right | now left]. }
  destruct Hd as [Hd|Hd].
  - rewrite !get_callback, Hd. split; [reflexivity|].
    intros Hio. now rewrite !all_callback, Hd.
  - split.
    + rewrite !get_callback, Hd. destruct (io' (FindOne other)); [reflexivity|].
      generalize (docs (Store.datastore this)) as l.
      induction l as [|x l IH]; simpl; [reflexivity|].
      destruct (matches sessionId x) eqn:E; simpl.
      * destruct (Hf x) as (Hl & Hs & Hi).
        unfold matches in *. rewrite Hi.
        destruct (_id x =? other)%string; [now rewrite Hl, Hs | reflexivity].
      * destruct (matches other x); [reflexivity | exact IH].
    + intros Hio. rewrite !all_callback, Hd by assumption.
      do 2 f_equal. unfold Spec.live_records.
      generalize (docs (Store.datastore this)) as l.
      induction l as [|x l IH]; simpl; [reflexivity|].
      destruct (matches sessionId x); simpl.
      * destruct (Hf x) as (Hl & Hs & _). rewrite Hl.
        destruct (Store.is_live now' x); simpl; now rewrite ?Hs.
      * destruct (Store.is_live now' x); simpl; now rewrite IH.
Qed.

Lemma touch_without_expiry_is_invisible_witness :
  fst (Store.get 50 no_faults "a"
         (snd (@Store.touch Sample.host 20 no_faults "a"
                 (Sample.plain_session VNull)
                 (Sample.holding [Sample.record "a" (Some (Some 9))]))))
  = fst (Store.get 50 no_faults "a"
           (Sample.holding [Sample.record "a" (Some (Some 9))])).
Proof.
  exact (proj1 (@touch_without_expiry_is_invisible Sample.host 20 50
    no_faults no_faults "a" "a" (Sample.plain_session VNull)
    (Sample.holding [Sample.record "a" (Some (Some 9))]) eq_refl)).
Defined.

Section OtherIds.

Variables (id other : string).
Hypothesis distinct : id <> other.

Lemma matches_other (d : doc) : matches id d = true -> matches other d = false.
Proof.
  intros Hm. apply matches_iff in Hm. apply matches_false_iff. congruence.
Qed.

Lemma update_first_find_other (f : doc -> doc) (l : list doc) :
  (forall d, _id (f d) = _id d) ->
  List.find (matches other) (update_first id f l) = List.find (matches other) l.
Proof.
  intros Hf. induction l as [|d l IH]; simpl; [reflexivity|].
  destruct (matches id d) eqn:E; simpl.
  - rewrite (matches_other d E).
    assert (matches other (f d) = false) as ->; [|reflexivity].
    apply matches_false_iff. rewrite Hf. apply matches_iff in E. congruence.
  - destruct (matches other d); [reflexivity | exact IH].
Qed.

Lemma remove_first_find_other (l : list doc) :
  List.find (matches other) (remove_first id l) = List.find (matches other) l.
Proof.
  induction l as [|d l IH]; simpl; [reflexivity|].
  destruct (matches id d) eqn:E; simpl.
  - now rewrite (matches_other d E).
  - destruct (matches other d); [reflexivity | exact IH].
Qed.

Lemma append_find_other (l : list doc) (d : doc) :
  _id d = id ->
  List.find (matches other) (l ++ [d]) = List.find (matches other) l.
Proof.
  intros Hd. induction l as [|x l IH]; simpl.
  - assert (matches other d = false) as ->; [|reflexivity].
    apply matches_false_iff. congruence.
  - destruct (matches other x); [reflexivity | exact IH].
Qed.

Lemma update_find_other (now : Z) (io : faults) (m : modifier) (upsert : bool)
    (ds : Datastore) :
  List.find (matches other) (docs (snd (update now io id m upsert ds))) =
  List.find (matches other) (docs ds).
Proof.
  rewrite update_docs. destruct (io _); [reflexivity|].
  destruct (List.find (matches id) (docs ds)).
  - apply update_first_find_other. apply modify_id.
  - destruct upsert; [|reflexivity]. now apply append_find_other.
Qed.

End OtherIds.

(** X12.  [set], [touch] and [destroy] on one id leave the record of every
    other id as it is, so a [get] of another id calls back the same before and
    after. *)
Theorem other_ids_untouched `{Host}
    (now now' : Z) (io io' : faults) (sessionId other : string)
    (session : value) (this : Store.instance) :
  sessionId <> other ->
  let same (after : Store.instance) :=
    List.find (matches other) (docs (Store.datastore after)) =
      List.find (matches other) (docs (Store.datastore this)) /\
    fst (Store.get now' io' other after) = fst (Store.get now' io' other this) in
  same (snd (Store.set now io sessionId session this)) /\
  same (snd (Store.touch now io sessionId session this)) /\
  same (snd (Store.destroy io sessionId this)).
Proof.
  intros Hne same.
  assert (forall after,
    List.find (matches other) (docs (Store.datastore after)) =
      List.find (matches other) (docs (Store.datastore this)) -> same after) as Hs.
  { intros after Hf. split; [exact Hf|]. now rewrite !get_callback, Hf. }
  split; [|split]; apply Hs.
  - destruct (set_datastore now io sessionId session this) as [->|[m ->]];
      [reflexivity|]. now apply update_find_other.
  - unfold Store.touch.
    pose proof (update_find_other sessionId other Hne now io
                  (Store.touchSetOp now session) false (Store.datastore this)) as Hu.
    now destruct (update _ _ _ _ _ _) as [[[err n] nd] ds].
  - unfold Store.destroy, remove. destruct (io _); simpl; [reflexivity|].
    now apply remove_first_find_other.
Qed.

Lemma other_ids_untouched_witness :
  fst (Store.get 5 no_faults "b"
         (snd (Store.destroy no_faults "a"
                 (Sample.holding [Sample.record "a" None; Sample.record "b" None]))))
  = fst (Store.get 5 no_faults "b"
           (Sample.holding [Sample.record "a" None; Sample.record "b" None])).
Proof.
  refine (proj2 (proj2 (proj2 (@other_ids_untouched Sample.host 5 5
    no_faults no_faults "a" "b" VNull
    (Sample.holding [Sample.record "a" None; Sample.record "b" None]) _)))).
  discriminate.
Defined.

(** X13.  [destroy] of an id that has no record succeeds without touching the
    documents, and on a collection with unique ids a second accepted [destroy]
    of the same id changes nothing more. *)
Theorem destroy_is_idempotent
    (io io' : faults) (sessionId : string) (this : Store.instance) :
  io (Remove sessionId) = None -> io' (Remove sessionId) = None ->
  let once := Store.destroy io sessionId this in
  let twice := Store.destroy io' sessionId (snd once) in
  (List.find (matches sessionId) (docs (Store.datastore this)) = None ->
     fst once = None /\
     docs (Store.datastore (snd once)) = docs (Store.datastore this)) /\
  (unique_ids (docs (Store.datastore this)) ->
     fst twice = None /\
     docs (Store.datastore (snd twice)) = docs (Store.datastore (snd once))).
Proof.
  intros Hio Hio' once twice. split.
  - intros Hf. unfold once. rewrite destroy_result, destroy_docs by assumption.
    split; [assumption | now apply remove_first_absent].
  - intros Hu. unfold twice. rewrite destroy_result, destroy_docs by assumption.
    split; [assumption|]. apply remove_first_absent.
    unfold once. rewrite destroy_docs by assumption.
    now apply remove_first_gone.
Qed.

Lemma destroy_is_idempotent_witness :
  docs (Store.datastore (snd (Store.destroy no_faults "c"
         (Sample.holding [Sample.record "a" None; Sample.record "b" None]))))
  = [Sample.record "a" None; Sample.record "b" None].
Proof.
  exact (proj2 (proj1 (destroy_is_idempotent no_faults no_faults "c"
    (Sample.holding [Sample.record "a" None; Sample.record "b" None])
    eq_refl eq_refl) eq_refl)).
Defined.

(* ================================================================== *)
(** * Further properties: [all] under failures and repeated *)
(* ================================================================== *)

Lemma filter_live_docs_any (now : Z) (io : faults) (pre l : list doc)
    (this : Store.instance) :
  docs (Store.datastore this) = pre ++ l ->
  unique_ids (pre ++ l) ->
  docs (Store.datastore (snd (Store.filter_live now io l this))) =
  pre ++ filter (fun d => Store.is_live now d || Run.rejected io d) l.
Proof.
  revert pre this.
  induction l as [|d l IH]; intros pre this Hd Hu; simpl; [exact Hd|].
  assert (pre ++ d :: l = (pre ++ [d]) ++ l) as Heq by now rewrite <- app_assoc.
  destruct (Store.is_live now d) eqn:Hl; simpl.
  - specialize (IH (pre ++ [d]) this). rewrite <- Heq in IH.
    destruct (Store.filter_live now io l this) as [kept this']. simpl in *.
    rewrite IH by assumption. now rewrite <- app_assoc.
  - unfold Store.destroy, remove, Run.rejected.
    destruct (io (Remove (_id d))) as [e|]; simpl.
    + rewrite (IH (pre ++ [d])).
      * now rewrite <- app_assoc.
      * simpl. now rewrite Hd.
      * now rewrite <- Heq.
    + apply IH.
      * simpl. rewrite Hd. apply remove_first_split; [|reflexivity].
        apply find_none_iff. unfold unique_ids in Hu. rewrite map_app in Hu.
        simpl in Hu. apply NoDup_remove_2 in Hu. intros Hin. apply Hu.
        apply in_or_app. auto.
      * unfold unique_ids in *. rewrite map_app in *. simpl in Hu.
        now apply NoDup_remove_1 in Hu.
Qed.

(** X14.  Whatever removals the datastore rejects, [all] on a collection with
    unique ids takes away exactly the stale records whose removal was
    accepted: every live record stays, in its place, and nothing is added. *)
Theorem all_never_removes_live
    (now : Z) (io : faults) (this : Store.instance) :
  io Find = None ->
  unique_ids (docs (Store.datastore this)) ->
  let before := docs (Store.datastore this) in
  let after := docs (Store.datastore (snd (Store.all now io this))) in
  after = filter (fun d => Store.is_live now d || Run.rejected io d) before /\
  filter (Store.is_live now) after = filter (Store.is_live now) before /\
  (forall d, In d before -> Store.is_live now d = true -> In d after).
Proof.
  intros Hio Hu before after.
  assert (after =
          filter (fun d => Store.is_live now d || Run.rejected io d) before) as Ha.
  { unfold after. rewrite (all_unfold now io this Hio). simpl.
    now rewrite (filter_live_docs_any now io [] (docs (Store.datastore this))). }
  split; [exact Ha|]. split.
  - rewrite Ha. clear. induction before as [|d l IH]; simpl; [reflexivity|].
    destruct (Store.is_live now d) eqn:E; simpl.
    + rewrite E. now rewrite IH.
    + destruct (Run.rejected io d); simpl; [rewrite E|]; exact IH.
  - intros d Hin Hl. rewrite Ha. apply filter_In. split; [assumption|].
    now rewrite Hl.
Qed.

Lemma all_never_removes_live_witness :
  docs (Store.datastore (snd (Store.all 200 Sample.removal_fails
         (Sample.holding [Sample.record "a" (Some (Some 100));
                          Sample.record "b" (Some (Some 300))]))))
  = [Sample.record "a" (Some (Some 100)); Sample.record "b" (Some (Some 300))].
Proof.
  refine (proj1 (all_never_removes_live 200 Sample.removal_fails
    (Sample.holding [Sample.record "a" (Some (Some 100));
                     Sample.record "b" (Some (Some 300))]) eq_refl _)).
  repeat constructor; simpl; intuition discriminate.
Defined.

Lemma filter_live_later (now now' : Z) (l : list doc) :
  now <= now' ->
  filter (Store.is_live now') (filter (Store.is_live now) l) =
  filter (Store.is_live now') l.
Proof.
  intros Hle. induction l as [|d l IH]; simpl; [reflexivity|].
  destruct (Store.is_live now d) eqn:E; simpl.
  - now rewrite IH.
  - destruct (Store.is_live now' d) eqn:E'; [|exact IH].
    apply (is_live_earlier now now' d Hle) in E'. congruence.
Qed.

Lemma filter_stale_of_live (now : Z) (l : list doc) :
  filter (fun d => negb (Store.is_live now d)) (filter (Store.is_live now) l) = [].
Proof.
  induction l as [|d l IH]; simpl; [reflexivity|].
  destruct (Store.is_live now d) eqn:E; simpl; [now rewrite E|exact IH].
Qed.

(** X15.  Cleaning up does not change what is listed.  After an [all] at time
    [now] whose removals were accepted, on a collection with unique ids: an
    [all] at any later time calls back as it would have on the store before
    the first [all]; a [length] at the same time counts the payloads the first
    [all] returned; and an [all] at the same time finds nothing left to
    remove. *)
Theorem all_then_all
    (now now' : Z) (io io' : faults) (this : Store.instance) :
  io Find = None -> (forall id, io (Remove id) = None) ->
  io' Find = None ->
  unique_ids (docs (Store.datastore this)) ->
  now <= now' ->
  let cleaned := snd (Store.all now io this) in
  fst (Store.all now' io' cleaned) = fst (Store.all now' io' this) /\
  (exists sessions,
     fst (Store.all now io this) = (None, Some sessions) /\
     fst (Store.length now io' cleaned) = (None, Z.of_nat (List.length sessions))) /\
  log (Store.datastore (snd (Store.all now io' cleaned))) =
    log (Store.datastore cleaned) ++ [Find].
Proof.
  intros Hio Hrm Hio' Hu Hle cleaned.
  assert (docs (Store.datastore cleaned) =
          filter (Store.is_live now) (docs (Store.datastore this))) as Hd
    by now apply all_docs.
  split; [|split].
  - rewrite !all_callback by assumption. rewrite Hd.
    unfold Spec.live_records. now rewrite filter_live_later.
  - eexists. split; [now apply all_callback|].
    unfold Store.length.
    pose proof (all_callback now io' cleaned Hio') as Ha.
    destruct (Store.all now io' cleaned) as [[err sessions] this']. simpl in *.
    injection Ha as -> ->. simpl. rewrite Hd. unfold Spec.live_records.
    now rewrite (filter_live_later now now _ (Z.le_refl now)).
  - rewrite all_log by assumption. rewrite Hd. unfold Spec.stale_records.
    now rewrite filter_stale_of_live.
Qed.

Lemma all_then_all_witness :
  fst (Store.all 250 no_faults
         (snd (Store.all 200 no_faults
                 (Sample.holding [Sample.record "a" (Some (Some 100));
                                  Sample.record "b" (Some (Some 300))]))))
  = fst (Store.all 250 no_faults
           (Sample.holding [Sample.record "a" (Some (Some 100));
                            Sample.record "b" (Some (Some 300))])).
Proof.
  refine (proj1 (all_then_all 200 250 no_faults no_faults
    (Sample.holding [Sample.record "a" (Some (Some 100));
                     Sample.record "b" (Some (Some 300))])
    eq_refl (fun _ => eq_refl) eq_refl _ _)).
  - repeat constructor; simpl; intuition discriminate.
  - discriminate.
Defined.

(* ================================================================== *)
(** * Further properties: what every run of the store keeps *)
(* ================================================================== *)

Section Kept.

Variable P : doc -> Prop.

Lemma remove_first_Forall (id : string) (l : list doc) :
  Forall P l -> Forall P (remove_first id l).
Proof.
  rewrite !Forall_forall. intros Hl d Hin. apply Hl.
  now apply remove_first_incl in Hin.
Qed.

Lemma update_Forall (now : Z) (io : faults) (id : string) (m : modifier)
    (upsert : bool) (ds : Datastore) :
  (forall d, P d -> P (modify now m d)) ->
  (upsert = true -> P (inserted now id m)) ->
  Forall P (docs ds) ->
  Forall P (docs (snd (update now io id m upsert ds))).
Proof.
  intros Hm Hi Hl. rewrite update_docs.
  destruct (io _); [assumption|].
  destruct (List.find _ _).
  - clear -Hm Hl. induction Hl as [|x xs Hx Hxs IH]; simpl; [constructor|].
    destruct (matches id x); constructor; auto.
  - destruct upsert; [|assumption].
    apply Forall_app. split; [assumption|]. constructor; [auto | constructor].
Qed.

Lemma destroy_Forall (io : faults) (id : string) (this : Store.instance) :
  Forall P (docs (Store.datastore this)) ->
  Forall P (docs (Store.datastore (snd (Store.destroy io id this)))).
Proof.
  intros Hl. unfold Store.destroy, remove. destruct (io _); simpl;
    [assumption | now apply remove_first_Forall].
Qed.

Lemma filter_live_Forall (now : Z) (io : faults) (l : list doc)
    (this : Store.instance) :
  Forall P (docs (Store.datastore this)) ->
  Forall P (docs (Store.datastore (snd (Store.filter_live now io l this)))).
Proof.
  revert this. induction l as [|d l IH]; intros this Hl; simpl; [exact Hl|].
  destruct (Store.is_live now d).
  - specialize (IH this Hl). now destruct (Store.filter_live now io l this).
  - pose proof (destroy_Forall io (_id d) this Hl) as Hd.
    destruct (Store.destroy io (_id d) this) as [[e|] this']; apply IH; exact Hd.
Qed.

Lemma get_Forall (now : Z) (io : faults) (id : string) (this : Store.instance) :
  Forall P (docs (Store.datastore this)) ->
  Forall P (docs (Store.datastore (snd (Store.get now io id this)))).
Proof.
  intros Hl. unfold Store.get, findOne.
  destruct (io (FindOne id)); simpl; [exact Hl|].
  destruct (List.find _ _) as [d|]; [|exact Hl].
  destruct (Store.is_live now d); [exact Hl|].
  pose proof (destroy_Forall io id
    (Store.with_datastore (received (FindOne id) (Store.datastore this)) this) Hl)
    as Hd.
  now destruct (Store.destroy _ _ _).
Qed.

Lemma all_Forall (now : Z) (io : faults) (this : Store.instance) :
  Forall P (docs (Store.datastore this)) ->
  Forall P (docs (Store.datastore (snd (Store.all now io this)))).
Proof.
  intros Hl. unfold Store.all, find.
  destruct (io Find); simpl; [exact Hl|].
  pose proof (filter_live_Forall now io (docs (Store.datastore this))
    (Store.with_datastore (received Find (Store.datastore this)) this) Hl) as Hf.
  now destruct (Store.filter_live _ _ _ _).
Qed.

Lemma length_Forall (now : Z) (io : faults) (this : Store.instance) :
  Forall P (docs (Store.datastore this)) ->
  Forall P (docs (Store.datastore (snd (Store.length now io this)))).
Proof.
  intros Hl. unfold Store.length.
  pose proof (all_Forall now io this Hl) as Ha.
  now destruct (Store.all now io this) as [[err sessions] this'].
Qed.

Lemma clear_Forall (io : faults) (this : Store.instance) :
  Forall P (docs (Store.datastore this)) ->
  Forall P (docs (Store.datastore (snd (Store.clear io this)))).
Proof.
  intros Hl. unfold Store.clear, remove_all.
  destruct (io RemoveAll); simpl; [assumption | constructor].
Qed.

End Kept.

Section DefaultExpiryKept.

Lemma filter_live_defaultExpiry (now : Z) (io : faults) (l : list doc)
    (this : Store.instance) :
  Store._defaultExpiry (snd (Store.filter_live now io l this)) =
  Store._defaultExpiry this.
Proof.
  revert this. induction l as [|d l IH]; intros this; simpl; [reflexivity|].
  destruct (Store.is_live now d).
  - specialize (IH this). now destruct (Store.filter_live now io l this).
  - unfold Store.destroy, remove.
    destruct (io (Remove (_id d))); simpl; now rewrite IH.
Qed.

Lemma step_defaultExpiry `{Host} (this this' : Store.instance) :
  Run.step this this' -> Store._defaultExpiry this' = Store._defaultExpiry this.
Proof.
  intros Hs. destruct Hs.
  - apply set_defaultExpiry.
  - unfold Store.touch. now destruct (update _ _ _ _ _ _) as [[[err n] nd] ds].
  - unfold Store.get, findOne. destruct (io _); simpl; [reflexivity|].
    destruct (List.find _ _) as [d|]; [|reflexivity].
    destruct (Store.is_live now d); [reflexivity|].
    unfold Store.destroy, remove. now destruct (io (Remove sessionId)).
  - unfold Store.all, find. destruct (io Find); simpl; [reflexivity|].
    pose proof (filter_live_defaultExpiry now io (docs (Store.datastore this))
      (Store.with_datastore (received Find (Store.datastore this)) this)) as Hf.
    now destruct (Store.filter_live _ _ _ _).
  - unfold Store.length, Store.all, find. destruct (io Find); simpl; [reflexivity|].
    pose proof (filter_live_defaultExpiry now io (docs (Store.datastore this))
      (Store.with_datastore (received Find (Store.datastore this)) this)) as Hf.
    now destruct (Store.filter_live _ _ _ _).
  - unfold Store.destroy, remove. now destruct (io _).
  - unfold Store.clear, remove_all. now destruct (io _).
Qed.

End DefaultExpiryKept.



Section ExpiryKept.

Context `{Host}.
Variables (now : Z) (io : faults) (sessionId : string) (payload : value)
  (this : Store.instance).

Hypothesis expiring : Forall Run.has_expiry (docs (Store.datastore this)).

Lemma set_keeps_expiry :
  Forall Run.has_expiry
    (docs (Store.datastore (snd (Store.set now io sessionId payload this)))).
Proof.
  unfold Store.set.
  destruct (Store.serialized payload) as [sess|e]; [|assumption].
  pose proof (update_Forall Run.has_expiry now io sessionId
    {| set_session := Some sess;
       set_expiresAt := Some (Store.expirationDate now this payload);
       set_updatedAt := None |} true (Store.datastore this)) as Hupd.
  destruct (update _ _ _ _ _ _) as [[[err n] nd] ds]. simpl in *.
  apply Hupd; [| |assumption]; unfold Run.has_expiry; simpl; discriminate.
Qed.

Lemma touch_keeps_expiry :
  Forall Run.has_expiry
    (docs (Store.datastore (snd (Store.touch now io sessionId payload this)))).
Proof.
  unfold Store.touch.
  pose proof (update_Forall Run.has_expiry now io sessionId
    (Store.touchSetOp now payload) false (Store.datastore this)) as Hupd.
  destruct (update _ _ _ _ _ _) as [[[err n] nd] ds]. simpl in *.
  apply Hupd; [|discriminate|assumption].
  intros d Hd. unfold Run.has_expiry, modify, Store.touchSetOp in *. simpl.
  destruct (ToBoolean _); [discriminate | assumption].
Qed.

End ExpiryKept.

(** X17.  A store that starts from records with an [expiresAt] never holds a
    record without one: [set] always writes an expiry and [touch] never drops
    it.  In such a store the test of [get] and [all] is the date comparison
    alone, whatever the payload. *)
Theorem reachable_records_expire `{Host}
    (init this : Store.instance) :
  Forall Run.has_expiry (docs (Store.datastore init)) ->
  Run.reachable init this ->
  Forall Run.has_expiry (docs (Store.datastore this)) /\
  forall now d, In d (docs (Store.datastore this)) ->
    Store.is_live now d = Store.before_expiresAt now d.
Proof.
  intros Hi Hr.
  assert (Forall Run.has_expiry (docs (Store.datastore this))) as Hall.
  { induction Hr as [|this this' Hr IH Hs]; [assumption|].
    destruct Hs.
    - now apply set_keeps_expiry.
    - now apply touch_keeps_expiry.
    - now apply get_Forall.
    - now apply all_Forall.
    - now apply length_Forall.
    - now apply destroy_Forall.
    - now apply clear_Forall. }
  split; [exact Hall|].
  intros now d Hin. rewrite Forall_forall in Hall. specialize (Hall d Hin).
  unfold Run.has_expiry in Hall.
  unfold Store.is_live, Store.no_expiresAt.
  destruct (expiresAt d); [|congruence]. now rewrite andb_false_r.
Qed.

Lemma reachable_records_expire_witness :
  Forall Run.has_expiry (docs (Store.datastore
    (snd (@Store.set Sample.host 5 no_faults "a" (Sample.plain_session VNull)
            Sample.store)))).
Proof.
  refine (proj1 (@reachable_records_expire Sample.host Sample.store _
    (Forall_nil _) _)).
  eapply Run.reach_step; [apply Run.reach_init | apply Run.step_set].
Defined.

(* ================================================================== *)
(** * Further properties: the earlier [index.js] *)
(* ================================================================== *)

Section LegacyFacts.

Variables (now : Z) (io : faults) (sessionId : string) (payload : value)
  (ds : Datastore).

Lemma legacy_set_docs :
  docs (snd (Legacy.set now io sessionId payload ds)) =
  docs (snd (update now io sessionId
               {| set_session := Some payload; set_expiresAt := None;
                  set_updatedAt := None |} true ds)).
Proof.
  unfold Legacy.set. now destruct (update _ _ _ _ _ _) as [[[err n] nd] ds'].
Qed.

Lemma legacy_set_find :
  (forall m, io (Update sessionId m true) = None) ->
  List.find (matches sessionId) (docs (snd (Legacy.set now io sessionId payload ds)))
  = Some match List.find (matches sessionId) (docs ds) with
         | Some d =>
             {| _id := _id d; session := payload; expiresAt := expiresAt d;
                createdAt := createdAt d; updatedAt := now |}
         | None =>
             {| _id := sessionId; session := payload; expiresAt := None;
                createdAt := now; updatedAt := now |}
         end.
Proof.
  intros Hio. rewrite legacy_set_docs, upsert_find by apply Hio.
  now destruct (List.find _ _).
Qed.

End LegacyFacts.

(** X18.  In the earlier [index.js] an accepted [set] followed by a [get] of
    the id gives back the very session that was passed, at any time, there
    being no expiry; a falsy session is read back as [null]. *)
Theorem legacy_set_then_get
    (now : Z) (io io' : faults) (sessionId : string) (payload : value)
    (ds : Datastore) :
  (forall m, io (Update sessionId m true) = None) ->
  io' (FindOne sessionId) = None ->
  fst (Legacy.set now io sessionId payload ds) = None /\
  fst (Legacy.get io' sessionId (snd (Legacy.set now io sessionId payload ds))) =
    (None, if ToBoolean payload then payload else VNull).
Proof.
  intros Hio Hio'. split.
  - unfold Legacy.set.
    destruct (upsert_result now io sessionId
      {| set_session := Some payload; set_expiresAt := None;
         set_updatedAt := None |} ds (Hio _)) as [nd Hr].
    destruct (update _ _ _ _ _ _) as [[[err n] nd'] ds']. simpl in *.
    injection Hr as -> -> ->. now destruct nd.
  - unfold Legacy.get, findOne. rewrite Hio'. simpl.
    rewrite (legacy_set_find now io sessionId payload ds Hio).
    now destruct (List.find _ _).
Qed.

Lemma legacy_set_then_get_witness :
  fst (Legacy.get no_faults "a"
         (snd (Legacy.set 5 no_faults "a"
                 (Sample.express_session (VDate (Some 1)))
                 (Store.datastore Sample.store))))
  = (None, Sample.express_session (VDate (Some 1))).
Proof.
  exact (proj2 (legacy_set_then_get 5 no_faults no_faults "a"
    (Sample.express_session (VDate (Some 1))) (Store.datastore Sample.store)
    (fun _ => eq_refl) eq_refl)).
Defined.

Lemma get_live_log (now : Z) (io : faults) (sessionId : string)
    (this : Store.instance) (d : doc) :
  io (FindOne sessionId) = None ->
  List.find (matches sessionId) (docs (Store.datastore this)) = Some d ->
  Store.is_live now d = true ->
  log (Store.datastore (snd (Store.get now io sessionId this))) =
  log (Store.datastore this) ++ [FindOne sessionId].
Proof.
  intros Hio Hf Hl. unfold Store.get, findOne. rewrite Hio. simpl.
  now rewrite Hf, Hl.
Qed.

(** X19.  A record written for a new id by the earlier [index.js] has no
    [expiresAt], and the present [get] reads it accordingly: with a truthy
    payload it is returned at every time and kept, no removal being issued;
    with a falsy payload it is treated as stale, a removal is issued, the
    callback gets the removal's error with a null payload, and the record is
    gone once the removal is accepted. *)
Theorem legacy_record_never_expires
    (now now' : Z) (io io' : faults) (sessionId : string) (payload : value)
    (this : Store.instance) :
  List.find (matches sessionId) (docs (Store.datastore this)) = None ->
  (forall m, io (Update sessionId m true) = None) ->
  io' (FindOne sessionId) = None ->
  let written :=
    Store.with_datastore
      (snd (Legacy.set now io sessionId payload (Store.datastore this))) this in
  let result := Store.get now' io' sessionId written in
  List.find (matches sessionId) (docs (Store.datastore written)) =
    Some {| _id := sessionId; session := payload; expiresAt := None;
            createdAt := now; updatedAt := now |} /\
  (ToBoolean payload = true ->
     fst result = (None, payload) /\
     docs (Store.datastore (snd result)) = docs (Store.datastore written) /\
     log (Store.datastore (snd result)) =
       log (Store.datastore written) ++ [FindOne sessionId]) /\
  (ToBoolean payload = false ->
     fst result = (io' (Remove sessionId), VNull) /\
     log (Store.datastore (snd result)) =
       log (Store.datastore written) ++ [FindOne sessionId; Remove sessionId] /\
     (io' (Remove sessionId) = None ->
        docs (Store.datastore (snd result)) =
          remove_first sessionId (docs (Store.datastore written)))).
Proof.
  intros Hf Hio Hio' written result.
  assert (List.find (matches sessionId) (docs (Store.datastore written)) =
    Some {| _id := sessionId; session := payload; expiresAt := None;
            createdAt := now; updatedAt := now |}) as Hw.
  { unfold written. simpl.
    now rewrite (legacy_set_find now io sessionId payload _ Hio), Hf. }
  split; [exact Hw|]. split.
  - intros Ht.
    destruct (get_live now' io' sessionId written _ Hio' Hw) as [Hr Hd].
    { unfold Store.is_live, Store.no_expiresAt. simpl. now rewrite Ht. }
    split; [exact Hr|]. split; [exact Hd|].
    apply (get_live_log now' io' sessionId written _ Hio' Hw).
    unfold Store.is_live, Store.no_expiresAt. simpl. now rewrite Ht.
  - intros Ht.
    destruct (get_stale now' io' sessionId written _ Hio' Hw) as (Hr & Hl & Hd).
    { unfold Store.is_live, Store.no_expiresAt, Store.before_expiresAt. simpl.
      now rewrite Ht. }
    split; [exact Hr|]. split; [exact Hl|].
    intros Hrm. fold result in Hd. now rewrite Hrm in Hd.
Qed.

Lemma legacy_record_never_expires_witness :
  fst (Store.get 99999999999 no_faults "a"
         (Store.with_datastore
            (snd (Legacy.set 5 no_faults "a"
                    (Sample.express_session (VDate (Some 1)))
                    (Store.datastore Sample.store)))
            Sample.store))
  = (None, Sample.express_session (VDate (Some 1))).
Proof.
  exact (proj1 (proj1 (proj2 (legacy_record_never_expires 5 99999999999
    no_faults no_faults "a"
    (Sample.express_session (VDate (Some 1))) Sample.store
    eq_refl (fun _ => eq_refl) eq_refl)) eq_refl)).
Defined.

Lemma filter_live_all_live (now : Z) (io : faults) (l : list doc)
    (this : Store.instance) :
  Forall (fun d => Store.is_live now d = true) l ->
  Store.filter_live now io l this = (l, this).
Proof.
  induction 1 as [|d l Hd Hl IH]; simpl; [reflexivity|].
  now rewrite Hd, IH.
Qed.

(** X20.  On a collection whose records have a truthy payload and no
    [expiresAt], as the earlier [index.js] leaves them, the present [all]
    lists what the earlier [all] lists and removes nothing. *)
Theorem all_agrees_with_legacy
    (now : Z) (io : faults) (this : Store.instance) :
  io Find = None ->
  Forall (fun d => Spec.has_payload d /\ expiresAt d = None)
         (docs (Store.datastore this)) ->
  fst (Store.all now io this) = fst (Legacy.all io (Store.datastore this)) /\
  docs (Store.datastore (snd (Store.all now io this))) =
    docs (Store.datastore this) /\
  log (Store.datastore (snd (Store.all now io this))) =
    log (Store.datastore this) ++ [Find].
Proof.
  intros Hio Hl.
  assert (filter (Store.is_live now) (docs (Store.datastore this))
          = docs (Store.datastore this)) as Hlive.
  { induction Hl as [|d l [Hp He] Hl IH]; simpl; [reflexivity|].
    unfold Store.is_live at 1, Store.no_expiresAt. rewrite Hp, He. simpl.
    now rewrite IH. }
  assert (Spec.stale_records now (docs (Store.datastore this)) = []) as Hstale.
  { unfold Spec.stale_records. rewrite <- Hlive at 1.
    apply filter_stale_of_live. }
  split; [|split].
  - rewrite all_callback by assumption. unfold Spec.live_records.
    rewrite Hlive. unfold Legacy.all, find. now rewrite Hio.
  - rewrite (all_unfold now io this Hio).
    rewrite filter_live_all_live; [reflexivity|].
    apply Forall_forall. intros d Hin. rewrite Forall_forall in Hl.
    destruct (Hl d Hin) as [Hp He].
    unfold Store.is_live, Store.no_expiresAt. now rewrite Hp, He.
  - rewrite all_log by assumption. now rewrite Hstale.
Qed.

Lemma all_agrees_with_legacy_witness :
  fst (Store.all 99999999999 no_faults
         (Sample.holding [Sample.record "a" None; Sample.record "b" None]))
  = fst (Legacy.all no_faults
           (Store.datastore
              (Sample.holding [Sample.record "a" None; Sample.record "b" None]))).
Proof.
  refine (proj1 (all_agrees_with_legacy 99999999999 no_faults
    (Sample.holding [Sample.record "a" None; Sample.record "b" None])
    eq_refl _)).
  repeat constructor.
Defined.

(** X21.  The earlier constructor throws, building no store, exactly when
    [inMemoryOnly] is the boolean [false] and no filename is given.  Otherwise
    it builds the store, and the [callback] argument, when it is a function, is
    the one called on load, before [options.onload].  A file-based store
    always calls [setAutocompactionInterval], with [null] when the interval
    was given as [null]; an in-memory one never does, and starts without
    documents. *)
Theorem legacy_constructor
    (opts : Legacy.options) (callback : value) (persisted : list doc)
    (loadErr : option error) :
  let built := Legacy.NeDBStore opts callback persisted loadErr in
  let file_based :=
    ToBoolean (Legacy.filename opts) = true /\
    Legacy.inMemoryOnly opts <> VBool true in
  (built = Throw Legacy.not_specified <->
     Legacy.inMemoryOnly opts = VBool false /\
     ToBoolean (Legacy.filename opts) = false) /\
  ((forall this, built <> Normal this) <->
     Legacy.inMemoryOnly opts = VBool false /\
     ToBoolean (Legacy.filename opts) = false) /\
  forall this, built = Normal this ->
    (is_function callback = true ->
       Legacy.loaded this = (callback, loadErr)) /\
    (file_based -> exists interval, Legacy.scheduled this = Some interval) /\
    (file_based -> Legacy.autoCompactInterval opts = VNull ->
       Legacy.scheduled this = Some VNull) /\
    (~ file_based ->
       Legacy.scheduled this = None /\ docs (Legacy.datastore this) = []).
Proof.
  intros built file_based. unfold built, file_based, Legacy.NeDBStore.
  destruct (Legacy.inMemoryOnly opts) as [| |[|]| | | | |] eqn:Hm;
    destruct (ToBoolean (Legacy.filename opts)) eqn:Hf; simpl;
    rewrite ?Hf; simpl;
    repeat match goal with
    | |- _ /\ _ => split
    | |- _ <-> _ => split
    | |- forall _, _ => intro
    | H : _ /\ _ |- _ => destruct H
    | H : Normal _ = Normal _ |- _ => injection H as H; subst
    | H : Throw _ = Normal _ |- _ => discriminate H
    | H : Normal _ = Throw _ |- _ => discriminate H
    | H : forall this, Normal _ <> Normal this |- _ =>
        exfalso; eapply H; reflexivity
    | H : ?x <> ?x |- _ => now destruct H
    | H : ~ (_ /\ _) |- _ =>
        exfalso; apply H; split; [reflexivity | discriminate]
    | H : Legacy.autoCompactInterval opts = VNull |- _ => rewrite H
    | H : is_function callback = true |- _ => rewrite H
    end;
    simpl; try reflexivity; try discriminate; try congruence;
    try (destruct loadErr; reflexivity);
    try (eexists; reflexivity).
Qed.

Lemma legacy_constructor_witness :
  exists this,
    Legacy.NeDBStore
      {| Legacy.inMemoryOnly := VUndefined; Legacy.filename := VStr "sessions.db";
         Legacy.afterSerialization := VUndefined;
         Legacy.beforeDeserialization := VUndefined;
         Legacy.corruptAfterThreshold := VUndefined;
         Legacy.autoCompactInterval := VNull; Legacy.onload := VUndefined |}
      VUndefined [] None = Normal this /\
    Legacy.scheduled this = Some VNull.
Proof.
  eexists. split; [reflexivity|].
  refine (proj1 (proj2 (proj2 (proj2 (proj2 (legacy_constructor
    {| Legacy.inMemoryOnly := VUndefined; Legacy.filename := VStr "sessions.db";
       Legacy.afterSerialization := VUndefined;
       Legacy.beforeDeserialization := VUndefined;
       Legacy.corruptAfterThreshold := VUndefined;
       Legacy.autoCompactInterval := VNull; Legacy.onload := VUndefined |}
    VUndefined [] None)) _ eq_refl))) _ eq_refl).
  split; [reflexivity | discriminate].
Defined.

(** X22.  The earlier [touch], when accepted, stamps [updatedAt] on the record
    of the id and changes nothing else; with no record for the id it reports
    [No Session exists with ID <id>] and leaves the documents as they
    were. *)
Theorem legacy_touch_stamps
    (now : Z) (io : faults) (sessionId : string) (ds : Datastore) :
  (forall m, io (Update sessionId m false) = None) ->
  let result := Legacy.touch now io sessionId ds in
  match List.find (matches sessionId) (docs ds) with
  | None =>
      fst result = Some (Store.no_session sessionId) /\
      docs (snd result) = docs ds
  | Some d =>
      fst result = None /\
      exists l1 l2,
        docs ds = l1 ++ d :: l2 /\
        docs (snd result) =
          l1 ++ {| _id := _id d; session := session d;
                   expiresAt := expiresAt d; createdAt := createdAt d;
                   updatedAt := now |} :: l2
  end.
Proof.
  intros Hio result. unfold result, Legacy.touch, update.
  rewrite Hio, existsb_matches. simpl.
  destruct (List.find (matches sessionId) (docs ds)) as [d|] eqn:Hf; simpl.
  - split; [reflexivity|].
    destruct (find_split _ _ _ Hf) as (l1 & l2 & Hl & Hn).
    exists l1, l2. split; [assumption|]. rewrite Hl.
    apply find_some_id in Hf. destruct Hf as [Hid _].
    now rewrite (update_first_split _ _ _ _ _ Hn Hid).
  - split; reflexivity.
Qed.

Lemma legacy_touch_stamps_witness :
  fst (Legacy.touch 5 no_faults "b"
         (Store.datastore (Sample.holding [Sample.record "a" None])))
  = Some (Store.no_session "b").
Proof.
  exact (proj1 (legacy_touch_stamps 5 no_faults "b"
    (Store.datastore (Sample.holding [Sample.record "a" None]))
    (fun _ => eq_refl))).
Defined.

Lemma legacy_length_counts_all_witness :
  exists sessions,
    fst (Legacy.all no_faults
           (Store.datastore (Sample.holding [Sample.record "a" (Some (Some 1))])))
      = (None, Some sessions) /\
    fst (Legacy.length no_faults
           (Store.datastore (Sample.holding [Sample.record "a" (Some (Some 1))])))
      = (None, Some (Z.of_nat (List.length sessions))).
Proof.
  exact (legacy_length_counts_all no_faults
    (Store.datastore (Sample.holding [Sample.record "a" (Some (Some 1))]))
    eq_refl eq_refl).
Defined.

(* ================================================================== *)
(** * Further properties: construction *)
(* ================================================================== *)

(** X24.  An in-memory store depends on nothing but its [defaultExpiry] and
    the outcome of loading: whatever filename, serialisation hooks, corruption
    threshold, compaction interval and file contents come with the options,
    the options handed to the datastore have them reset, the store starts
    without documents and no compaction is scheduled. *)
Theorem in_memory_ignores_file_options
    (opts opts' : Store.options) (persisted persisted' : list doc)
    (loadErr : option error) :
  ToBoolean (Store.inMemoryOnly opts) = true ->
  ToBoolean (Store.inMemoryOnly opts') = true ->
  Store.defaultExpiry opts = Store.defaultExpiry opts' ->
  let this := Store.NeDBStore opts persisted loadErr in
  this = Store.NeDBStore opts' persisted' loadErr /\
  docs (Store.datastore this) = [] /\
  autocompaction (Store.datastore this) = None /\
  Store.inMemoryOnly (Store.normalized opts) = VBool true /\
  Store.filename (Store.normalized opts) = VNull /\
  Store.afterSerialization (Store.normalized opts) = VNull /\
  Store.beforeDeserialization (Store.normalized opts) = VNull /\
  Store.corruptAlertThreshold (Store.normalized opts) = VUndefined /\
  Store.autoCompactInterval (Store.normalized opts) = VNull.
Proof.
  intros Hm Hm' Hd this. unfold this, Store.NeDBStore, Store.normalized.
  rewrite Hm, Hm'. simpl. rewrite Hd.
  repeat split; destruct loadErr; reflexivity.
Qed.

Lemma in_memory_ignores_file_options_witness :
  Store.NeDBStore (Sample.in_memory (VStr "sessions.db") (VNum (Fin 7000)))
    [Sample.record "a" None] None
  = Store.NeDBStore (Sample.in_memory VUndefined VNull) [] None.
Proof.
  exact (proj1 (in_memory_ignores_file_options
    (Sample.in_memory (VStr "sessions.db") (VNum (Fin 7000)))
    (Sample.in_memory VUndefined VNull) [Sample.record "a" None] [] None
    eq_refl eq_refl eq_refl)).
Defined.
